(** * finance_api: the ownership-scoped data-access layer and its report

    A shallow embedding of [finance_api/models.py], [finance_api/schemas.py],
    [finance_api/crud.py] and the request handlers of [finance_api/main.py].

    The database reached through the SQLAlchemy [Session] is a record of three
    tables, each a list of rows in insertion order.  A function that writes to
    the database returns the new database next to its Python result; [None]
    is [None], a raised [HTTPException] is the left injection of a sum.

    [amount] is a [Float] column.  The development is generic in the type [A]
    of amounts and in its addition [add], of which nothing is assumed: every
    statement holds for the binary64 addition [PrimFloat.add] as it does for
    an exact one. *)

From Stdlib Require Import ZArith Floats.
From stdpp Require Import base list strings.

Local Open Scope Z_scope.
#[local] Set Warnings "-clear-no-such-hyp".
#[local] Set Default Proof Using "Type".

(** ** models.py *)

Module User.
Record t := mk { id : Z; email : string; hashed_password : string }.
End User.

Module Category.
Record t := mk { id : Z; name : string; owner_id : Z }.
End Category.

Module Transaction.
Record t {A : Type} := mk {
  id : Z;
  title : string;
  amount : A;
  type : string;          (* "income" or "expense" *)
  category_id : Z;
  owner_id : Z
}.
Arguments t : clear implicits.
Arguments mk {A}.
End Transaction.

(** ** schemas.py: the request payloads *)

Module UserCreate.
Record t := mk { email : string; password : string }.
End UserCreate.

Module CategoryCreate.
Record t := mk { name : string }.
End CategoryCreate.

Module TransactionCreate.
Record t {A : Type} := mk {
  title : string;
  amount : A;
  type : string;          (* any string; "expense" when the request omits it *)
  category_id : Z
}.
Arguments t : clear implicits.
Arguments mk {A}.

(** One entry of [transaction.dict()]: a declared field with its value. *)
Inductive item {A : Type} :=
| title_ (v : string)
| amount_ (v : A)
| type_ (v : string)
| category_id_ (v : Z).
Arguments item : clear implicits.

(** [transaction.dict()]: the four declared fields, in declaration order. *)
Definition dict {A} (transaction : t A) : list (item A) :=
  [ title_ (title transaction);
    amount_ (amount transaction);
    type_ (type transaction);
    category_id_ (category_id transaction) ].
End TransactionCreate.

(** [setattr(db_transaction, key, value)] for one item of the payload. *)
Definition setattr {A} (db_transaction : Transaction.t A)
    (kv : TransactionCreate.item A) : Transaction.t A :=
  let '(Transaction.mk id title amount type category_id owner_id) := db_transaction in
  match kv with
  | TransactionCreate.title_ v => Transaction.mk id v amount type category_id owner_id
  | TransactionCreate.amount_ v => Transaction.mk id title v type category_id owner_id
  | TransactionCreate.type_ v => Transaction.mk id title amount v category_id owner_id
  | TransactionCreate.category_id_ v => Transaction.mk id title amount type v owner_id
  end.

(** ** The table store *)

(** The database as the session sees it. *)
Record Session {A : Type} := mkSession {
  users : list User.t;
  categories : list Category.t;
  transactions : list (Transaction.t A)
}.
Arguments Session : clear implicits.
Arguments mkSession {A}.

Definition empty_db {A} : Session A := mkSession [] [] [].

(** Modelled from the spec: the relational store ([database.py] and the engine
    behind it) is not part of the sources.  The spec treats it as a
    key-indexed table store; the integer primary key of an inserted row is
    assigned by the store, here as the successor of the largest key of the
    table (1 for an empty table). *)
Definition next_id (ids : list Z) : Z := 1 + foldr Z.max 0 ids.

(** [.first()] of a query result. *)
Definition first {X} (rows : list X) : option X := head rows.

(** The primary keys of each table are pairwise distinct. *)
Definition wf {A} (db : Session A) : Prop :=
  NoDup (User.id <$> users db) ∧
  NoDup (Category.id <$> categories db) ∧
  NoDup (Transaction.id <$> transactions db).

(** ** crud.py *)

Module crud.
Section crud.
Context {A : Type}.
(** [func.sum] adds amounts with [add]. *)
Variable add : A → A → A.

Local Abbreviation Session := (Session A).
Local Abbreviation Transaction := (Transaction.t A).

Definition get_user_by_email (db : Session) (email : string) : option User.t :=
  first (filter (λ u, User.email u = email) (users db)).

Definition create_user (db : Session) (user : UserCreate.t)
    (hashed_password : string) : Session * User.t :=
  let db_user :=
    User.mk (next_id (User.id <$> users db)) (UserCreate.email user) hashed_password in
  (mkSession (users db ++ [db_user]) (categories db) (transactions db), db_user).

Definition create_transaction (db : Session) (transaction : TransactionCreate.t A)
    (user_id : Z) : Session * Transaction :=
  let db_transaction :=
    Transaction.mk (next_id (Transaction.id <$> transactions db))
      (TransactionCreate.title transaction)
      (TransactionCreate.amount transaction)
      (TransactionCreate.type transaction)
      (TransactionCreate.category_id transaction)
      user_id in
  (mkSession (users db) (categories db) (transactions db ++ [db_transaction]),
   db_transaction).

Definition get_transaction (db : Session) (transaction_id user_id : Z)
    : option Transaction :=
  first (filter (λ t, Transaction.id t = transaction_id ∧
                      Transaction.owner_id t = user_id) (transactions db)).

(** The UPDATE issued at commit for a modified object: it replaces the row
    that has the object's primary key. *)
Definition flush_update (db : Session) (obj : Transaction) : Session :=
  mkSession (users db) (categories db)
    ((λ r, if decide (Transaction.id r = Transaction.id obj) then obj else r)
       <$> transactions db).

(** The DELETE issued at commit for a deleted object. *)
Definition flush_delete (db : Session) (obj : Transaction) : Session :=
  mkSession (users db) (categories db)
    (filter (λ r, Transaction.id r ≠ Transaction.id obj) (transactions db)).

Definition update_transaction (db : Session) (transaction_id : Z)
    (transaction : TransactionCreate.t A) (user_id : Z)
    : Session * option Transaction :=
  match get_transaction db transaction_id user_id with
  | Some db_transaction =>
      let db_transaction' :=
        foldl setattr db_transaction (TransactionCreate.dict transaction) in
      (flush_update db db_transaction', Some db_transaction')
  | None => (db, None)
  end.

Definition delete_transaction (db : Session) (transaction_id user_id : Z)
    : Session * option Transaction :=
  match get_transaction db transaction_id user_id with
  | Some db_transaction => (flush_delete db db_transaction, Some db_transaction)
  | None => (db, None)
  end.

Definition create_category (db : Session) (category : CategoryCreate.t)
    (user_id : Z) : Session * Category.t :=
  let db_category :=
    Category.mk (next_id (Category.id <$> categories db))
      (CategoryCreate.name category) user_id in
  (mkSession (users db) (categories db ++ [db_category]) (transactions db),
   db_category).

(** [GROUP BY] with [sum]: the rows are scanned in order; a row whose key
    already has a group adds its amount to that group's running sum, a row
    with a new key opens a group. *)
Fixpoint accumulate (key : string) (a : A) (groups : list (string * A))
    : list (string * A) :=
  match groups with
  | [] => [(key, a)]
  | (k, s) :: groups' =>
      if decide (k = key) then (k, add s a) :: groups'
      else (k, s) :: accumulate key a groups'
  end.

Definition group_by_sum (rows : list (string * A)) : list (string * A) :=
  foldl (λ groups r, accumulate r.1 r.2 groups) [] rows.

(** The rows of [Category JOIN Transaction ON Category.id ==
    Transaction.category_id]. *)
Definition join (db : Session) : list (Category.t * Transaction) :=
  c ← categories db;
  t ← filter (λ t, Category.id c = Transaction.category_id t) (transactions db);
  [(c, t)].

Definition get_spending_by_category (db : Session) (user_id : Z)
    : list (string * A) :=
  group_by_sum
    ((λ r, (Category.name r.1, Transaction.amount r.2)) <$>
     filter (λ r, Transaction.type r.2 = "expense")
       (filter (λ r, Transaction.owner_id r.2 = user_id) (join db))).
End crud.

Section listing.
Context {A : Type}.

(** Modelled from the spec: the table store is not among the sources.
    [.offset(skip).limit(limit).all()] leaves out the first [skip] rows and
    returns at most [limit] of the rest.  [skip] and [limit] reach the store
    as the unvalidated integers of the request; the spec leaves negative
    values open, and they are taken as SQLite takes them: a negative offset
    leaves out nothing, a negative limit is no limit. *)
Definition offset_limit {X} (skip limit : Z) (rows : list X) : list X :=
  let rest := drop (Z.to_nat skip) rows in
  if decide (limit < 0) then rest else take (Z.to_nat limit) rest.

Definition get_transactions (db : Session A) (user_id : Z) (skip limit : Z)
    : list (Transaction.t A) :=
  offset_limit skip limit
    (filter (λ t, Transaction.owner_id t = user_id) (transactions db)).

Definition get_categories (db : Session A) (user_id : Z) (skip limit : Z)
    : list Category.t :=
  offset_limit skip limit
    (filter (λ c, Category.owner_id c = user_id) (categories db)).

Definition get_category (db : Session A) (category_id user_id : Z)
    : option Category.t :=
  first (filter (λ c, Category.id c = category_id ∧
                      Category.owner_id c = user_id) (categories db)).
End listing.
End crud.

(** ** main.py: the request handlers *)

Inductive HTTPException := mkHTTPException (status_code : Z) (detail : string).

Module main.
Section main.
Context {A : Type}.
(** [auth.get_password_hash]; [auth.py] is not part of the sources. *)
Variable get_password_hash : string → string.
Variable add : A → A → A.

Local Abbreviation Session := (Session A).
Local Abbreviation Transaction := (Transaction.t A).

Definition create_user (user : UserCreate.t) (db : Session)
    : Session * (HTTPException + User.t) :=
  match crud.get_user_by_email db (UserCreate.email user) with
  | Some _ => (db, inl (mkHTTPException 400 "Email already registered"))
  | None =>
      let hashed_password := get_password_hash (UserCreate.password user) in
      let '(db', db_user) := crud.create_user db user hashed_password in
      (db', inr db_user)
  end.

Definition create_transaction (transaction : TransactionCreate.t A) (db : Session)
    (current_user : User.t) : Session * Transaction :=
  crud.create_transaction db transaction (User.id current_user).

Definition read_transaction (transaction_id : Z) (db : Session)
    (current_user : User.t) : HTTPException + Transaction :=
  match crud.get_transaction db transaction_id (User.id current_user) with
  | None => inl (mkHTTPException 404 "Transaction not found")
  | Some db_transaction => inr db_transaction
  end.

Definition update_transaction (transaction_id : Z)
    (transaction : TransactionCreate.t A) (db : Session) (current_user : User.t)
    : Session * option Transaction :=
  crud.update_transaction db transaction_id transaction (User.id current_user).

Definition delete_transaction (transaction_id : Z) (db : Session)
    (current_user : User.t) : Session * option Transaction :=
  crud.delete_transaction db transaction_id (User.id current_user).

Definition create_category (category : CategoryCreate.t) (db : Session)
    (current_user : User.t) : Session * Category.t :=
  crud.create_category db category (User.id current_user).

Definition get_spending_report (db : Session) (current_user : User.t)
    : list (string * A) :=
  crud.get_spending_by_category add db (User.id current_user).

(** The databases the handlers can produce from the empty one.  The
    authenticated handlers run for a registered user. *)
Inductive reachable : Session → Prop :=
| reach_empty : reachable empty_db
| reach_create_user db user :
    reachable db → reachable (create_user user db).1
| reach_create_transaction db transaction current_user :
    reachable db → current_user ∈ users db →
    reachable (create_transaction transaction db current_user).1
| reach_update_transaction db transaction_id transaction current_user :
    reachable db → current_user ∈ users db →
    reachable (update_transaction transaction_id transaction db current_user).1
| reach_delete_transaction db transaction_id current_user :
    reachable db → current_user ∈ users db →
    reachable (delete_transaction transaction_id db current_user).1
| reach_create_category db category current_user :
    reachable db → current_user ∈ users db →
    reachable (create_category category db current_user).1.
End main.

(** The fields of [OAuth2PasswordRequestForm] that the login handler reads. *)
Record OAuth2PasswordRequestForm := mkForm { username : string; password : string }.

Section handlers.
Context {A : Type}.
(** [auth.verify_password] and [auth.create_access_token]; [auth.py] is not
    part of the sources.  The token is made from the claims dictionary. *)
Variable verify_password : string → string → bool.
Variable create_access_token : list (string * string) → string.

(** A raised exception comes with its [headers]; the returned dictionary is
    the list of its items. *)
Definition login_for_access_token (db : Session A)
    (form_data : OAuth2PasswordRequestForm)
    : (HTTPException * list (string * string)) + list (string * string) :=
  let unauthorized :=
    inl (mkHTTPException 401 "Incorrect email or password",
         [("WWW-Authenticate", "Bearer")]) in
  match crud.get_user_by_email db (username form_data) with
  | None => unauthorized
  | Some user =>
      if negb (verify_password (password form_data) (User.hashed_password user))
      then unauthorized
      else
        let access_token := create_access_token [("sub", User.email user)] in
        inr [("access_token", access_token); ("token_type", "bearer")]
  end.

Definition read_transactions (skip limit : Z) (db : Session A)
    (current_user : User.t) : list (Transaction.t A) :=
  crud.get_transactions db (User.id current_user) skip limit.

Definition read_categories (skip limit : Z) (db : Session A)
    (current_user : User.t) : list Category.t :=
  crud.get_categories db (User.id current_user) skip limit.
End handlers.
End main.

(** ** The report as the specification words it *)

Module spec.
Section spec.
Context {A : Type}.
Variable add : A → A → A.

(** Inner join of Transaction to Category on [category_id]: the pairs of a
    transaction and the category that its [category_id] names.  A join has no
    order of its own; the pairs are taken in the order in which the store
    yields them for the code's query, category by category, since a sum of
    floating-point amounts depends on the order of its terms. *)
Definition join (db : Session A) : list (Transaction.t A * Category.t) :=
  c ← categories db;
  t ← filter (λ t, Transaction.category_id t = Category.id c) (transactions db);
  [(t, c)].

(** Only the rows owned by [owner_id] with kind = expense. *)
Definition rows (db : Session A) (owner_id : Z)
    : list (Transaction.t A * Category.t) :=
  filter (λ r, Transaction.owner_id r.1 = owner_id ∧ Transaction.type r.1 = "expense")
    (join db).

(** The sum of a sequence of amounts, added from left to right; no amounts
    have no sum. *)
Definition sum (amounts : list A) : option A :=
  match amounts with
  | [] => None
  | a :: rest => Some (foldl add a rest)
  end.

(** The sum of the amounts of the group of [name]. *)
Definition total (rs : list (Transaction.t A * Category.t)) (name : string)
    : option A :=
  sum (Transaction.amount ∘ fst <$> filter (λ r, Category.name r.2 = name) rs).

(** One output row per category name among the kept rows. *)
Definition spending_by_category (db : Session A) (owner_id : Z)
    : list (string * A) :=
  omap (λ name, pair name <$> total (rows db owner_id) name)
    (remove_dups (Category.name ∘ snd <$> rows db owner_id)).
End spec.
End spec.

(** The total a report gives for a category name, if the name is in it. *)
Fixpoint report_total {A} (name : string) (report : list (string * A)) : option A :=
  match report with
  | [] => None
  | (k, s) :: report' => if decide (k = name) then Some s else report_total name report'
  end.

(** ** Auxiliary notions for the report *)

(** The amounts of the rows of one group, in scan order. *)
Definition group_amounts {A} (name : string) (rows : list (string * A)) : list A :=
  (filter (λ r, r.1 = name) rows).*2.

(** The transactions the report keeps: owned by [user_id], of type "expense". *)
Definition expenses {A} (db : Session A) (user_id : Z) : list (Transaction.t A) :=
  filter (λ t, Transaction.owner_id t = user_id ∧ Transaction.type t = "expense")
    (transactions db).

(** The (name, amount) pairs of the join of categories with a list of
    transactions, category by category. *)
Definition entries {A} (cs : list Category.t) (ts : list (Transaction.t A))
    : list (string * A) :=
  c ← cs;
  t ← filter (λ t, Category.id c = Transaction.category_id t) ts;
  [(Category.name c, Transaction.amount t)].

(** ** A small database, amounts in cents *)

(** A stand-in for [auth.get_password_hash]. *)
Definition sample_hash (password : string) : string := "hash:" +:+ password.

Definition alice : User.t := User.mk 1 "alice@example.org" "hash:pw1".
Definition bob : User.t := User.mk 2 "bob@example.org" "hash:pw2".

Definition coffee : Transaction.t Z := Transaction.mk 1 "Coffee" 450 "expense" 1 1.

(** Two users register; each creates a category and records an expense. *)
Definition sample_db : Session Z :=
  let db := (main.create_user sample_hash (UserCreate.mk "alice@example.org" "pw1") empty_db).1 in
  let db := (main.create_user sample_hash (UserCreate.mk "bob@example.org" "pw2") db).1 in
  let db := (main.create_category (CategoryCreate.mk "Food") db alice).1 in
  let db := (main.create_category (CategoryCreate.mk "Rent") db bob).1 in
  let db := (main.create_transaction (TransactionCreate.mk "Coffee" 450 "expense" 1) db alice).1 in
  let db := (main.create_transaction (TransactionCreate.mk "Flat" 90000 "expense" 2) db bob).1 in
  db.

Definition food : Category.t := Category.mk 1 "Food" 1.
Definition rent : Category.t := Category.mk 2 "Rent" 2.

(** Alice records a transaction of type "transfer". *)
Definition transfer_db : Session Z :=
  (main.create_transaction (TransactionCreate.mk "Move" 100 "transfer" 1) sample_db alice).1.

(** Alice creates two categories named "Food" and records one expense under
    the first. *)
Definition two_food_db : Session Z :=
  let db := (main.create_user sample_hash (UserCreate.mk "alice@example.org" "pw1") empty_db).1 in
  let db := (main.create_category (CategoryCreate.mk "Food") db alice).1 in
  let db := (main.create_category (CategoryCreate.mk "Food") db alice).1 in
  let db := (main.create_transaction (TransactionCreate.mk "Coffee" 450 "expense" 1) db alice).1 in
  db.

Definition second_food : Category.t := Category.mk 2 "Food" 1.

(** Alice records a second expense, under her own category. *)
Definition tea : Transaction.t Z := Transaction.mk 3 "Tea" 300 "expense" 1 1.

Definition tea_db : Session Z :=
  (main.create_transaction (TransactionCreate.mk "Tea" 300 "expense" 1) sample_db alice).1.

(** A stand-in for [auth.verify_password] that fits [sample_hash]. *)
Definition sample_verify (password hashed : string) : bool :=
  bool_decide (sample_hash password = hashed).

(** A stand-in for [auth.create_access_token]: the subject, tagged. *)
Definition sample_token (data : list (string * string)) : string :=
  match data with
  | [(_, subject)] => "token:" +:+ subject
  | _ => "token:"
  end.

(** ** A database with binary64 amounts *)

(** Alice files a large expense under a category of her own. *)
Definition float_db : Session float :=
  let db := (main.create_user sample_hash (UserCreate.mk "alice@example.org" "pw1") empty_db).1 in
  let db := (main.create_category (CategoryCreate.mk "Rent") db alice).1 in
  let db := (main.create_transaction
               (TransactionCreate.mk "House" 1e16%float "expense" 1) db alice).1 in
  db.

Definition float_rent : Category.t := Category.mk 1 "Rent" 1.

(** * Properties *)

(** ** The table store *)

Lemma next_id_bound (ids : list Z) (x : Z) : x ∈ ids → x < next_id ids.
Proof.
  unfold next_id. induction ids as [|y ids IH]; intros Hx.
  - by apply elem_of_nil in Hx.
  - apply elem_of_cons in Hx as [->|Hx]; simpl; [lia|].
    specialize (IH Hx). lia.
Qed.

Lemma next_id_fresh (ids : list Z) : next_id ids ∉ ids.
Proof. intros Hin. apply next_id_bound in Hin. lia. Qed.

Lemma NoDup_snoc_fresh (ids : list Z) : NoDup ids → NoDup (ids ++ [next_id ids]).
Proof.
  intros Hnd. apply NoDup_app. split_and!; [done| |apply NoDup_singleton].
  intros x Hx ->%list_elem_of_singleton. by apply next_id_fresh in Hx.
Qed.

Lemma first_filter_None {X} (P : X → Prop) `{!∀ x, Decision (P x)} (l : list X) :
  first (filter P l) = None ↔ ∀ x, x ∈ l → ¬ P x.
Proof.
  unfold first. rewrite head_None. split.
  - intros Hnil x Hx HP.
    assert (x ∈ filter P l) as Hin by (by apply list_elem_of_filter).
    rewrite Hnil in Hin. by apply elem_of_nil in Hin.
  - intros Hall. destruct (filter P l) as [|x l'] eqn:E; [done|].
    assert (x ∈ filter P l) as [HP Hx]%list_elem_of_filter by (rewrite E; left).
    by destruct (Hall x Hx).
Qed.

Lemma first_filter_Some {X} (P : X → Prop) `{!∀ x, Decision (P x)} (l : list X) x :
  first (filter P l) = Some x →
  P x ∧ ∃ l1 l2, l = l1 ++ x :: l2 ∧ ∀ y, y ∈ l1 → ¬ P y.
Proof.
  unfold first. induction l as [|y l IH]; [done|].
  rewrite filter_cons. destruct (decide (P y)) as [Hy|Hy]; simpl.
  - intros [= ->]. split; [done|]. exists [], l. split; [done|].
    intros z Hz. by apply elem_of_nil in Hz.
  - intros [HP (l1 & l2 & -> & Hl1)]%IH. split; [done|].
    exists (y :: l1), l2. split; [done|].
    intros z [->|Hz]%elem_of_cons; auto.
Qed.

(** With distinct keys, no other row of a table has the key of a given row. *)
Lemma NoDup_fmap_split {X} (f : X → Z) (l1 l2 : list X) (x y : X) :
  NoDup (f <$> l1 ++ x :: l2) → y ∈ l1 ++ l2 → f y ≠ f x.
Proof.
  rewrite fmap_app, fmap_cons. intros Hnd Hy Heq.
  apply NoDup_app in Hnd as (_ & Hdisj & [Hx2 _]%NoDup_cons).
  apply elem_of_app in Hy as [Hy|Hy].
  - apply (Hdisj (f y)); [by apply list_elem_of_fmap_2|]. rewrite Heq. left.
  - apply Hx2. rewrite <- Heq. by apply list_elem_of_fmap_2.
Qed.

Lemma NoDup_fmap_key_inj {X} (f : X → Z) (l : list X) (x y : X) :
  NoDup (f <$> l) → x ∈ l → y ∈ l → f y = f x → y = x.
Proof.
  intros Hnd Hx Hy Heq.
  apply list_elem_of_split in Hx as (l1 & l2 & ->).
  rewrite elem_of_app, elem_of_cons in Hy.
  destruct Hy as [Hy|[->|Hy]]; [|done|];
    destruct (NoDup_fmap_split f l1 l2 x y Hnd); auto; apply elem_of_app; auto.
Qed.

(** ** crud.py: single-row access *)

Section access.
Context {A : Type}.
Implicit Types (db : Session A) (t : Transaction.t A).

Lemma get_transaction_Some db i u t :
  crud.get_transaction db i u = Some t →
  Transaction.id t = i ∧ Transaction.owner_id t = u ∧
  ∃ l1 l2, transactions db = l1 ++ t :: l2 ∧
    ∀ r, r ∈ l1 → ¬ (Transaction.id r = i ∧ Transaction.owner_id r = u).
Proof.
  unfold crud.get_transaction.
  intros [[Hi Hu] Hsplit]%first_filter_Some. auto.
Qed.

Lemma get_transaction_None db i u :
  crud.get_transaction db i u = None ↔
  ∀ r, r ∈ transactions db → Transaction.id r = i → Transaction.owner_id r ≠ u.
Proof.
  unfold crud.get_transaction. rewrite first_filter_None.
  split; intros H r Hr; [|intros []]; naive_solver.
Qed.

Lemma get_transaction_missing db i u :
  i ∉ Transaction.id <$> transactions db → crud.get_transaction db i u = None.
Proof.
  intros Hi. apply get_transaction_None. intros r Hr <-.
  destruct Hi. by apply list_elem_of_fmap_2.
Qed.

Lemma get_transaction_other_owner db t u :
  wf db → t ∈ transactions db → Transaction.owner_id t ≠ u →
  crud.get_transaction db (Transaction.id t) u = None.
Proof.
  intros (_ & _ & Hnd) Ht Hu. apply get_transaction_None. intros r Hr Hid.
  by rewrite (NoDup_fmap_key_inj Transaction.id _ t r Hnd Ht Hr Hid).
Qed.

Lemma get_transaction_own db t :
  wf db → t ∈ transactions db →
  crud.get_transaction db (Transaction.id t) (Transaction.owner_id t) = Some t.
Proof.
  intros (_ & _ & Hnd) Ht.
  destruct (crud.get_transaction db (Transaction.id t) (Transaction.owner_id t))
    as [r|] eqn:E.
  - apply get_transaction_Some in E as (Hid & _ & l1 & l2 & Hdb & _).
    f_equal. apply (NoDup_fmap_key_inj Transaction.id (transactions db)); auto.
    rewrite Hdb. apply elem_of_app. right. left.
  - rewrite get_transaction_None in E. by destruct (E t Ht).
Qed.

Lemma update_transaction_None db i payload u :
  crud.get_transaction db i u = None →
  crud.update_transaction db i payload u = (db, None).
Proof. unfold crud.update_transaction. by intros ->. Qed.

Lemma delete_transaction_None db i u :
  crud.get_transaction db i u = None →
  crud.delete_transaction db i u = (db, None).
Proof. unfold crud.delete_transaction. by intros ->. Qed.

(** The loop over [transaction.dict().items()] sets the four payload fields
    and nothing else. *)
Lemma setattr_dict t (payload : TransactionCreate.t A) :
  foldl setattr t (TransactionCreate.dict payload) =
  Transaction.mk (Transaction.id t)
    (TransactionCreate.title payload) (TransactionCreate.amount payload)
    (TransactionCreate.type payload) (TransactionCreate.category_id payload)
    (Transaction.owner_id t).
Proof. by destruct t. Qed.

(** The UPDATE touches only the row with the object's key. *)
Lemma flush_update_split db l1 l2 t t' :
  wf db → transactions db = l1 ++ t :: l2 → Transaction.id t' = Transaction.id t →
  transactions (crud.flush_update db t') = l1 ++ t' :: l2.
Proof.
  intros (_ & _ & Hnd) Hdb Hid. simpl. rewrite Hdb in Hnd |- *.
  assert (∀ l : list (Transaction.t A), (∀ r, r ∈ l → r ∈ l1 ++ l2) →
    (λ r, if decide (Transaction.id r = Transaction.id t') then t' else r) <$> l = l)
    as Hframe.
  { induction l as [|r l IH]; intros Hl; [done|]. rewrite fmap_cons.
    rewrite IH by (intros; apply Hl; by right).
    rewrite decide_False; [done|]. rewrite Hid.
    apply (NoDup_fmap_split _ _ _ _ _ Hnd), Hl. left. }
  rewrite fmap_app, fmap_cons, decide_True by done.
  rewrite !Hframe; [done| |]; intros r Hr; apply elem_of_app; auto.
Qed.

(** The DELETE removes only the row with the object's key. *)
Lemma flush_delete_split db l1 l2 t :
  wf db → transactions db = l1 ++ t :: l2 →
  transactions (crud.flush_delete db t) = l1 ++ l2.
Proof.
  intros (_ & _ & Hnd) Hdb. simpl. rewrite Hdb in Hnd |- *.
  assert (∀ l : list (Transaction.t A), (∀ r, r ∈ l → r ∈ l1 ++ l2) →
    filter (λ r, Transaction.id r ≠ Transaction.id t) l = l) as Hframe.
  { induction l as [|r l IH]; intros Hl; [done|].
    rewrite filter_cons_True, IH; [done|intros; apply Hl; by right|].
    apply (NoDup_fmap_split _ _ _ _ _ Hnd), Hl. left. }
  rewrite filter_app, filter_cons_False by (intros H; by apply H).
  rewrite !Hframe; [done| |]; intros r Hr; apply elem_of_app; auto.
Qed.

Lemma get_transaction_flush_delete db t i u :
  i = Transaction.id t → crud.get_transaction (crud.flush_delete db t) i u = None.
Proof.
  intros ->. apply get_transaction_None. simpl.
  intros r [Hne _]%list_elem_of_filter Hid. done.
Qed.
End access.

(** ** The primary keys stay distinct *)

Section wf.
Context {A : Type}.
Implicit Types (db : Session A).

Lemma wf_empty : wf (@empty_db A).
Proof. repeat split; apply NoDup_nil_2. Qed.

Lemma wf_create_user db user hashed_password :
  wf db → wf (crud.create_user db user hashed_password).1.
Proof.
  intros (Hu & Hc & Ht). repeat split; simpl; [|done..].
  rewrite fmap_app. by apply NoDup_snoc_fresh.
Qed.

Lemma wf_create_category db category u :
  wf db → wf (crud.create_category db category u).1.
Proof.
  intros (Hu & Hc & Ht). repeat split; simpl; [done| |done].
  rewrite fmap_app. by apply NoDup_snoc_fresh.
Qed.

Lemma wf_create_transaction db payload u :
  wf db → wf (crud.create_transaction db payload u).1.
Proof.
  intros (Hu & Hc & Ht). repeat split; simpl; [done..|].
  rewrite fmap_app. by apply NoDup_snoc_fresh.
Qed.

Lemma wf_update_transaction db i payload u :
  wf db → wf (crud.update_transaction db i payload u).1.
Proof.
  intros Hwf. unfold crud.update_transaction.
  destruct (crud.get_transaction db i u) as [t|] eqn:E; [|done].
  apply get_transaction_Some in E as (_ & _ & l1 & l2 & Hdb & _).
  pose proof Hwf as (Hu & Hc & Ht). repeat split; [done..|].
  cbv zeta. unfold fst.
  rewrite (flush_update_split db l1 l2 t) by (by rewrite ?setattr_dict).
  rewrite Hdb in Ht. by rewrite setattr_dict, fmap_app, fmap_cons in *.
Qed.

Lemma wf_delete_transaction db i u :
  wf db → wf (crud.delete_transaction db i u).1.
Proof.
  intros Hwf. unfold crud.delete_transaction.
  destruct (crud.get_transaction db i u) as [t|] eqn:E; [|done].
  apply get_transaction_Some in E as (_ & _ & l1 & l2 & Hdb & _).
  pose proof Hwf as (Hu & Hc & Ht). repeat split; [done..|].
  unfold fst. rewrite (flush_delete_split db l1 l2 t) by done.
  rewrite Hdb, fmap_app, fmap_cons in Ht. rewrite fmap_app.
  apply NoDup_app in Ht as (H1 & Hdisj & [_ H2]%NoDup_cons).
  apply NoDup_app. split_and!; [done| |done].
  intros x Hx Hx2. apply (Hdisj x Hx). by right.
Qed.

(** Every database the handlers can produce has distinct primary keys. *)
Lemma reachable_wf get_password_hash db :
  main.reachable get_password_hash db → wf db.
Proof.
  induction 1 as [|db user _ IH|db payload cu _ IH _|db i payload cu _ IH _
                  |db i cu _ IH _|db category cu _ IH _].
  - apply wf_empty.
  - unfold main.create_user.
    destruct (crud.get_user_by_email db (UserCreate.email user)); [done|].
    by apply wf_create_user.
  - by apply wf_create_transaction.
  - by apply wf_update_transaction.
  - by apply wf_delete_transaction.
  - by apply wf_create_category.
Qed.
End wf.

(** ** GROUP BY and sum *)

Section groups.
Context {A : Type}.
Implicit Types (groups rows : list (string * A)).

Lemma group_amounts_cons n k a rows :
  group_amounts n ((k, a) :: rows) =
  if decide (k = n) then a :: group_amounts n rows else group_amounts n rows.
Proof. unfold group_amounts. rewrite filter_cons. simpl. by case_decide. Qed.

Lemma group_amounts_app n rows1 rows2 :
  group_amounts n (rows1 ++ rows2) = group_amounts n rows1 ++ group_amounts n rows2.
Proof. unfold group_amounts. by rewrite filter_app, fmap_app. Qed.

Lemma group_amounts_nil n rows : group_amounts n rows = [] ↔ n ∉ rows.*1.
Proof.
  induction rows as [|[k a] rows IH]; simpl.
  - split; [intros _ H; by apply elem_of_nil in H|done].
  - rewrite group_amounts_cons, not_elem_of_cons. case_decide; naive_solver.
Qed.

Lemma report_total_None n groups : report_total n groups = None ↔ n ∉ groups.*1.
Proof.
  induction groups as [|[k s] groups IH]; simpl.
  - split; [intros _ H; by apply elem_of_nil in H|done].
  - rewrite not_elem_of_cons. case_decide; naive_solver.
Qed.

Lemma report_total_Some n s groups :
  NoDup groups.*1 → report_total n groups = Some s ↔ (n, s) ∈ groups.
Proof.
  induction groups as [|[k s'] groups IH]; simpl.
  - intros _. split; [done|intros H; by apply elem_of_nil in H].
  - intros [Hk Hnd]%NoDup_cons. rewrite elem_of_cons. case_decide as Hkn.
    + subst k. split; [intros [= ->]; by left|].
      intros [[= ->]|Hin]; [done|]. destruct Hk.
      by apply (list_elem_of_fmap_2 fst) in Hin.
    + rewrite IH by done. naive_solver.
Qed.

(** Two reports with one row per name and the same totals have the same rows. *)
Lemma report_total_ext groups1 groups2 :
  NoDup groups1.*1 → NoDup groups2.*1 →
  (∀ n, report_total n groups1 = report_total n groups2) → groups1 ≡ₚ groups2.
Proof.
  intros H1 H2 Heq. apply NoDup_Permutation; [by eapply NoDup_fmap_1..|].
  intros [n s]. by rewrite <- !report_total_Some, Heq.
Qed.
End groups.

Section group_by_sum.
Context {A : Type}.
Variable add : A → A → A.
Implicit Types (groups rows : list (string * A)).

Lemma report_total_accumulate n k a groups :
  report_total n (crud.accumulate add k a groups) =
  if decide (k = n)
  then Some (from_option (λ s, add s a) a (report_total n groups))
  else report_total n groups.
Proof.
  induction groups as [|[k' s] groups IH]; simpl.
  - by repeat case_decide.
  - destruct (decide (k' = k)) as [->|Hk]; simpl.
    + by repeat case_decide.
    + rewrite IH. repeat case_decide; simplify_eq; done.
Qed.

Lemma report_total_foldl n rows groups :
  report_total n (foldl (λ groups r, crud.accumulate add r.1 r.2 groups) groups rows) =
  match report_total n groups with
  | Some s => Some (foldl add s (group_amounts n rows))
  | None =>
      match group_amounts n rows with
      | [] => None
      | a :: l => Some (foldl add a l)
      end
  end.
Proof.
  revert groups. induction rows as [|[k a] rows IH]; intros groups; simpl.
  - by destruct (report_total n groups).
  - rewrite IH, report_total_accumulate, group_amounts_cons.
    case_decide; [|done]. by destruct (report_total n groups).
Qed.

(** A group's total is the left-to-right sum of its amounts; a name without
    rows has no group. *)
Lemma report_total_group_by_sum n rows :
  report_total n (crud.group_by_sum add rows) =
  match group_amounts n rows with
  | [] => None
  | a :: l => Some (foldl add a l)
  end.
Proof. unfold crud.group_by_sum. by rewrite report_total_foldl. Qed.

Lemma group_by_sum_keys n rows : n ∈ (crud.group_by_sum add rows).*1 ↔ n ∈ rows.*1.
Proof.
  destruct (decide (n ∈ rows.*1)) as [Hin|Hin]; split; try done.
  - intros _. destruct (decide (n ∈ (crud.group_by_sum add rows).*1)) as [|Hn]; [done|].
    apply report_total_None in Hn. rewrite report_total_group_by_sum in Hn.
    apply group_amounts_nil in Hin; [done|]. by destruct (group_amounts n rows).
  - intros Hn. apply group_amounts_nil in Hin.
    pose proof (report_total_group_by_sum n rows) as Ht. rewrite Hin in Ht.
    by apply report_total_None in Ht.
Qed.

Lemma accumulate_keys n k a groups :
  n ∈ (crud.accumulate add k a groups).*1 ↔ n = k ∨ n ∈ groups.*1.
Proof.
  induction groups as [|[k' s] groups IH]; simpl.
  - rewrite list_elem_of_singleton, elem_of_nil. naive_solver.
  - case_decide; simpl; rewrite !elem_of_cons; naive_solver.
Qed.

Lemma NoDup_accumulate k a groups :
  NoDup groups.*1 → NoDup (crud.accumulate add k a groups).*1.
Proof.
  induction groups as [|[k' s] groups IH]; simpl.
  - intros _. apply NoDup_singleton.
  - intros [Hk Hnd]%NoDup_cons. case_decide; simpl; apply NoDup_cons; [done|].
    split; [|by apply IH]. rewrite accumulate_keys. naive_solver.
Qed.

(** The report has one row per name. *)
Lemma NoDup_group_by_sum rows : NoDup (crud.group_by_sum add rows).*1.
Proof.
  unfold crud.group_by_sum.
  assert (∀ groups, NoDup groups.*1 →
    NoDup (foldl (λ groups r, crud.accumulate add r.1 r.2 groups) groups rows).*1)
    as H; [|apply H, NoDup_nil_2].
  induction rows as [|r rows IH]; intros groups Hnd; [done|].
  simpl. by apply IH, NoDup_accumulate.
Qed.
End group_by_sum.

(** ** The join *)

Section join.
Context {A : Type}.
Implicit Types (db : Session A) (cs : list Category.t) (ts : list (Transaction.t A)).

Lemma bind_nil {X Y} (f : X → list Y) : [] ≫= f = [].
Proof. done. Qed.

Lemma entries_cons_l c cs ts :
  entries (c :: cs) ts = entries [c] ts ++ entries cs ts.
Proof. unfold entries. by rewrite !bind_cons, bind_nil, app_nil_r. Qed.

(** The pairs of one category and one transaction. *)
Lemma entries_single c (t : Transaction.t A) :
  entries [c] [t] =
  if decide (Category.id c = Transaction.category_id t)
  then [(Category.name c, Transaction.amount t)] else [].
Proof.
  unfold entries. rewrite bind_cons, bind_nil, app_nil_r, filter_cons, filter_nil.
  by case_decide.
Qed.

Lemma entries_single_cons_r c t ts :
  entries [c] (t :: ts) = entries [c] [t] ++ entries [c] ts.
Proof.
  unfold entries. rewrite !bind_cons, !bind_nil, !app_nil_r, !filter_cons, filter_nil.
  case_decide; [|done]. by rewrite !bind_cons, bind_nil.
Qed.

(** The two filters of the report select the expenses of the user; they
    commute with the join. *)
Lemma get_spending_by_category_entries (add : A → A → A) db u :
  crud.get_spending_by_category add db u =
  crud.group_by_sum add (entries (categories db) (expenses db u)).
Proof.
  unfold crud.get_spending_by_category, crud.join, expenses, entries. f_equal.
  induction (categories db) as [|c cs IH]; [done|].
  rewrite !bind_cons, !filter_app, fmap_app, IH. f_equal. clear IH.
  induction (transactions db) as [|t ts IH]; [done|].
  rewrite !filter_cons.
  repeat first
    [ rewrite bind_cons | rewrite filter_app | rewrite fmap_app
    | rewrite filter_cons | rewrite filter_nil | case_decide | progress simpl in * ];
    rewrite ?IH; try done; exfalso; tauto.
Qed.

Lemma entries_app_l cs1 cs2 ts :
  entries (cs1 ++ cs2) ts = entries cs1 ts ++ entries cs2 ts.
Proof. unfold entries. by rewrite bind_app. Qed.

Lemma entries_single_app_r c ts1 ts2 :
  entries [c] (ts1 ++ ts2) = entries [c] ts1 ++ entries [c] ts2.
Proof.
  unfold entries. by rewrite !bind_cons, !bind_nil, !app_nil_r, filter_app, bind_app.
Qed.

(** The kept rows of the reference aggregation are the pairs the code's query
    keeps, in the same order. *)
Lemma spec_rows_entries db u :
  (λ r, (Category.name r.2, Transaction.amount r.1)) <$> spec.rows db u =
  entries (categories db) (expenses db u).
Proof.
  unfold spec.rows, spec.join, expenses, entries.
  induction (categories db) as [|c cs IH]; [done|].
  rewrite !bind_cons, !filter_app, fmap_app, IH. f_equal. clear IH.
  induction (transactions db) as [|t ts IH]; [done|].
  rewrite !filter_cons.
  repeat first
    [ rewrite bind_cons | rewrite filter_app | rewrite fmap_app
    | rewrite filter_cons | rewrite filter_nil | case_decide | progress simpl in * ];
    rewrite ?IH; try done; exfalso; intuition congruence.
Qed.
End join.

(** ** Sums from left to right *)

Section sums.
Context {A : Type}.
Variable add : A → A → A.

Lemma sum_snoc (l : list A) a :
  spec.sum add (l ++ [a]) =
  Some (match spec.sum add l with Some s => add s a | None => a end).
Proof. destruct l as [|x l]; simpl; [done|]. by rewrite foldl_app. Qed.


(** The total of a name in the report is the sum, from left to right, of the
    amounts of the pairs with that name. *)
Lemma report_total_report n (db : Session A) u :
  report_total n (crud.get_spending_by_category add db u) =
  spec.sum add (group_amounts n (entries (categories db) (expenses db u))).
Proof. by rewrite get_spending_by_category_entries, report_total_group_by_sum. Qed.

Lemma spec_total_group_amounts (rs : list (Transaction.t A * Category.t)) n :
  spec.total add rs n =
  spec.sum add
    (group_amounts n ((λ r, (Category.name r.2, Transaction.amount r.1)) <$> rs)).
Proof.
  unfold spec.total, group_amounts. f_equal.
  induction rs as [|r rs IH]; [done|].
  rewrite fmap_cons, !filter_cons. simpl. case_decide; [|done].
  rewrite !fmap_cons. by f_equal.
Qed.

Lemma report_total_omap (f : string → option A) (ks : list string) n :
  report_total n (omap (λ k, pair k <$> f k) ks) =
  if decide (n ∈ ks) then f n else None.
Proof.
  induction ks as [|k ks IH]; [done|]. cbn [omap list_omap].
  assert ((if decide (n ∈ k :: ks) then f n else None) =
          if decide (n = k) then f n else if decide (n ∈ ks) then f n else None) as ->.
  { repeat case_decide; try done; exfalso; rewrite elem_of_cons in *; tauto. }
  destruct (f k) as [s|] eqn:E; cbn [fmap option_fmap option_map report_total fst];
    rewrite IH.
  - destruct (decide (k = n)) as [->|Hne]; [by rewrite decide_True|].
    by rewrite (decide_False (P := n = k)).
  - destruct (decide (n = k)) as [->|Hne]; [|done]. rewrite E. by case_decide.
Qed.

Lemma NoDup_omap_keys (f : string → option A) (ks : list string) :
  NoDup ks → NoDup (omap (λ k, pair k <$> f k) ks).*1.
Proof.
  induction ks as [|k ks IH]; [done|]. intros [Hk Hnd]%NoDup_cons. simpl.
  destruct (f k) as [s|]; simpl; [|by apply IH].
  apply NoDup_cons. split; [|by apply IH].
  rewrite <- report_total_None, report_total_omap. by rewrite decide_False.
Qed.
End sums.

(** * The claims *)

(** ** Isolation between users *)

(** C1. A transaction owned by user A, addressed by its id with the identity
    of another user B, is not found by [get_transaction]
    ([read_transaction] raises the 404), by [update_transaction] or by
    [delete_transaction]; update and delete leave the database, and so the
    transaction, as it was.  An id that no transaction has gives the same
    outcomes. *)
Theorem cross_user_access_not_found {A} (db : Session A) (t : Transaction.t A)
    (a b : User.t) (payload : TransactionCreate.t A) :
  wf db → t ∈ transactions db →
  Transaction.owner_id t = User.id a → User.id a ≠ User.id b →
  let outcome i :=
    crud.get_transaction db i (User.id b) = None ∧
    main.read_transaction i db b = inl (mkHTTPException 404 "Transaction not found") ∧
    crud.update_transaction db i payload (User.id b) = (db, None) ∧
    main.update_transaction i payload db b = (db, None) ∧
    crud.delete_transaction db i (User.id b) = (db, None) ∧
    main.delete_transaction i db b = (db, None) in
  outcome (Transaction.id t) ∧
  ∀ missing, missing ∉ Transaction.id <$> transactions db → outcome missing.
Proof.
  intros Hwf Ht Ha Hab.
  assert (∀ i, crud.get_transaction db i (User.id b) = None →
    crud.get_transaction db i (User.id b) = None ∧
    main.read_transaction i db b = inl (mkHTTPException 404 "Transaction not found") ∧
    crud.update_transaction db i payload (User.id b) = (db, None) ∧
    main.update_transaction i payload db b = (db, None) ∧
    crud.delete_transaction db i (User.id b) = (db, None) ∧
    main.delete_transaction i db b = (db, None)) as Hnone.
  { intros i Hi. unfold main.read_transaction, main.update_transaction,
      main.delete_transaction.
    by rewrite update_transaction_None, delete_transaction_None, Hi. }
  split.
  - apply Hnone, get_transaction_other_owner; [done..|]. by rewrite Ha.
  - intros missing Hmissing. by apply Hnone, get_transaction_missing.
Qed.

Lemma cross_user_access_not_found_witness :
  wf sample_db ∧ coffee ∈ transactions sample_db ∧
  Transaction.owner_id coffee = User.id alice ∧ User.id alice ≠ User.id bob ∧
  crud.get_transaction sample_db 1 2 = None ∧
  crud.update_transaction sample_db 1 (TransactionCreate.mk "Tea" 1 "income" 2) 2
    = (sample_db, None) ∧
  crud.delete_transaction sample_db 1 2 = (sample_db, None).
Proof.
  assert (wf sample_db) as Hwf
    by (repeat split; by apply (bool_decide_unpack _)).
  assert (coffee ∈ transactions sample_db) as Hin by (vm_compute; left).
  assert (User.id alice ≠ User.id bob) as Hne by (by vm_compute).
  destruct (cross_user_access_not_found sample_db coffee alice bob
              (TransactionCreate.mk "Tea" 1 "income" 2) Hwf Hin eq_refl Hne)
    as [(Hget & _ & Hupdate & _ & Hdelete & _) _].
  by split_and!.
Defined.

(** ** Creation *)

(** C6. The row stored by [create_transaction] and by [create_category] has
    the authenticated user's id as its owner, whatever the payload; the
    payload types have no owner field.  The new row is appended to its table
    and is found under that owner. *)
Theorem create_stamps_owner {A} (db : Session A) (current_user : User.t)
    (transaction : TransactionCreate.t A) (category : CategoryCreate.t) :
  (let '(db', row) := main.create_transaction transaction db current_user in
   Transaction.owner_id row = User.id current_user ∧
   transactions db' = transactions db ++ [row] ∧
   crud.get_transaction db' (Transaction.id row) (User.id current_user) = Some row) ∧
  (let '(db', row) := main.create_category category db current_user in
   Category.owner_id row = User.id current_user ∧
   categories db' = categories db ++ [row]).
Proof.
  split; [|done]. simpl. split_and!; [done..|].
  unfold crud.get_transaction. simpl.
  rewrite filter_app, filter_cons_True, filter_nil by done.
  set (i := next_id _).
  assert (first (filter (λ r : Transaction.t A,
            Transaction.id r = i ∧ Transaction.owner_id r = User.id current_user)
            (transactions db)) = None) as Hnone.
  { apply first_filter_None. intros r Hr [Hid _].
    destruct (next_id_fresh (Transaction.id <$> transactions db)).
    fold i. rewrite <- Hid. by apply list_elem_of_fmap_2. }
  apply head_None in Hnone. by rewrite Hnone.
Qed.

(** ** Registration *)

(** C7. Registering an email that a user row already has raises the 400
    "Email already registered" and leaves the database unchanged. *)
Theorem register_email_taken {A} (get_password_hash : string → string)
    (db : Session A) (user : UserCreate.t) (u : User.t) :
  u ∈ users db → User.email u = UserCreate.email user →
  main.create_user get_password_hash user db =
    (db, inl (mkHTTPException 400 "Email already registered")).
Proof.
  intros Hu Hemail. unfold main.create_user.
  destruct (crud.get_user_by_email db (UserCreate.email user)) eqn:E; [done|].
  unfold crud.get_user_by_email in E. rewrite first_filter_None in E.
  by destruct (E u Hu).
Qed.

Lemma register_email_taken_witness :
  alice ∈ users sample_db ∧
  User.email alice = UserCreate.email (UserCreate.mk "alice@example.org" "other") ∧
  main.create_user sample_hash (UserCreate.mk "alice@example.org" "other") sample_db =
    (sample_db, inl (mkHTTPException 400 "Email already registered")).
Proof.
  assert (alice ∈ users sample_db) as Hin by (vm_compute; left).
  split_and!; [done..|].
  exact (register_email_taken sample_hash sample_db
           (UserCreate.mk "alice@example.org" "other") alice Hin eq_refl).
Defined.

(** ** Update and delete *)

(** C8. Updating a transaction of the caller replaces its title, amount, type
    and category reference by the payload's and keeps its id and owner; the
    other rows of the transaction table stay in place, and the user and
    category tables are untouched.  A following [get_transaction] returns
    the updated row. *)
Theorem update_transaction_frame {A} (db : Session A) (t : Transaction.t A)
    (payload : TransactionCreate.t A) :
  wf db → t ∈ transactions db →
  let t' := Transaction.mk (Transaction.id t)
              (TransactionCreate.title payload) (TransactionCreate.amount payload)
              (TransactionCreate.type payload) (TransactionCreate.category_id payload)
              (Transaction.owner_id t) in
  ∃ l1 l2, transactions db = l1 ++ t :: l2 ∧
    let db' := mkSession (users db) (categories db) (l1 ++ t' :: l2) in
    crud.update_transaction db (Transaction.id t) payload (Transaction.owner_id t)
      = (db', Some t') ∧
    crud.get_transaction db' (Transaction.id t) (Transaction.owner_id t) = Some t'.
Proof.
  intros Hwf Ht t'.
  pose proof (get_transaction_own db t Hwf Ht) as Hget.
  pose proof (wf_update_transaction db (Transaction.id t) payload
                (Transaction.owner_id t) Hwf) as Hwf'.
  unfold crud.update_transaction in *. rewrite Hget in *.
  apply get_transaction_Some in Hget as (_ & _ & l1 & l2 & Hdb & _).
  exists l1, l2. split; [done|]. rewrite setattr_dict in *. fold t' in Hwf' |- *.
  assert (crud.flush_update db t' =
          mkSession (users db) (categories db) (l1 ++ t' :: l2)) as Hflush.
  { unfold crud.flush_update. f_equal. by apply (flush_update_split db l1 l2 t). }
  simpl in Hwf'. rewrite Hflush in *. split; [done|].
  apply (get_transaction_own _ t' Hwf'). simpl. apply elem_of_app. right. left.
Qed.

Lemma update_transaction_frame_witness :
  wf sample_db ∧ coffee ∈ transactions sample_db ∧
  ∃ db', crud.update_transaction sample_db 1 (TransactionCreate.mk "Coffee" 999 "expense" 1) 1
    = (db', Some (Transaction.mk 1 "Coffee" 999 "expense" 1 1)).
Proof.
  assert (wf sample_db) as Hwf
    by (repeat split; by apply (bool_decide_unpack _)).
  assert (coffee ∈ transactions sample_db) as Hin by (vm_compute; left).
  split_and!; [done..|].
  destruct (update_transaction_frame sample_db coffee
              (TransactionCreate.mk "Coffee" 999 "expense" 1) Hwf Hin)
    as (l1 & l2 & _ & Hupdate & _).
  eexists. exact Hupdate.
Defined.

(** C9. Deleting a transaction of the caller returns the row as it was, and
    removes that row and no other; a following [get_transaction] with the
    same id and owner finds nothing.  For an id under which the caller owns
    no transaction, [delete_transaction] returns [None] and changes
    nothing. *)
Theorem delete_transaction_snapshot {A} (db : Session A) (t : Transaction.t A) :
  wf db → t ∈ transactions db →
  (∃ l1 l2, transactions db = l1 ++ t :: l2 ∧
     let db' := mkSession (users db) (categories db) (l1 ++ l2) in
     crud.delete_transaction db (Transaction.id t) (Transaction.owner_id t)
       = (db', Some t) ∧
     crud.get_transaction db' (Transaction.id t) (Transaction.owner_id t) = None) ∧
  (∀ i u, (∀ r, r ∈ transactions db → Transaction.id r = i → Transaction.owner_id r ≠ u) →
     crud.delete_transaction db i u = (db, None)) ∧
  (∀ u, u ≠ Transaction.owner_id t →
     crud.delete_transaction db (Transaction.id t) u = (db, None)).
Proof.
  intros Hwf Ht. split_and!.
  - pose proof (get_transaction_own db t Hwf Ht) as Hget.
    unfold crud.delete_transaction. rewrite Hget.
    apply get_transaction_Some in Hget as (_ & _ & l1 & l2 & Hdb & _).
    exists l1, l2. split; [done|].
    assert (crud.flush_delete db t =
            mkSession (users db) (categories db) (l1 ++ l2)) as Hflush.
    { unfold crud.flush_delete. f_equal. by apply (flush_delete_split db l1 l2 t). }
    cbv zeta. rewrite <- Hflush. split; [done|].
    by apply get_transaction_flush_delete.
  - intros i u Hnone. by apply delete_transaction_None, get_transaction_None.
  - intros u Hu. apply delete_transaction_None, get_transaction_other_owner; auto.
Qed.

Lemma delete_transaction_snapshot_witness :
  wf sample_db ∧ coffee ∈ transactions sample_db ∧
  (∃ db', crud.delete_transaction sample_db 1 1 = (db', Some coffee) ∧
          crud.get_transaction db' 1 1 = None) ∧
  crud.delete_transaction sample_db 1 2 = (sample_db, None).
Proof.
  assert (wf sample_db) as Hwf
    by (repeat split; by apply (bool_decide_unpack _)).
  assert (coffee ∈ transactions sample_db) as Hin by (vm_compute; left).
  destruct (delete_transaction_snapshot sample_db coffee Hwf Hin)
    as ((l1 & l2 & _ & Hdelete & Hget) & _ & Hother).
  split_and!; [done..| |].
  - eexists. split; [exact Hdelete|exact Hget].
  - apply (Hother 2). by vm_compute.
Defined.

(** ** The spending report *)

Section report.
Context {A : Type}.
Implicit Types (db : Session A) (cs : list Category.t) (ts : list (Transaction.t A)).

(** The names of the joined pairs. *)
Lemma entries_keys n cs ts :
  n ∈ (entries cs ts).*1 ↔
  ∃ c t, c ∈ cs ∧ t ∈ ts ∧ Category.id c = Transaction.category_id t ∧ Category.name c = n.
Proof.
  unfold entries. rewrite list_elem_of_fmap. split.
  - intros ([k a] & -> & (c & (t & Hin & [Hj Ht]%list_elem_of_filter)%list_elem_of_bind & Hc)%list_elem_of_bind).
    apply list_elem_of_singleton in Hin as [= -> ->]. eauto 10.
  - intros (c & t & Hc & Ht & Hj & <-).
    exists (Category.name c, Transaction.amount t). split; [done|].
    apply list_elem_of_bind. exists c. split; [|done].
    apply list_elem_of_bind. exists t. split; [by left|].
    by apply list_elem_of_filter.
Qed.

(** The names in the report of [u] are those of the categories that an
    expense of [u] references. *)
Lemma reported_names (add : A → A → A) db u n :
  n ∈ (crud.get_spending_by_category add db u).*1 ↔
  ∃ c t, c ∈ categories db ∧ t ∈ transactions db ∧
    Transaction.category_id t = Category.id c ∧ Transaction.owner_id t = u ∧
    Transaction.type t = "expense" ∧ Category.name c = n.
Proof.
  rewrite get_spending_by_category_entries, group_by_sum_keys, entries_keys.
  unfold expenses. setoid_rewrite list_elem_of_filter. naive_solver.
Qed.

(** A new transaction that is not an expense of [u] does not change what the
    report of [u] is computed from. *)
Lemma expenses_create_other db payload owner u :
  ¬ (owner = u ∧ TransactionCreate.type payload = "expense") →
  expenses (crud.create_transaction db payload owner).1 u = expenses db u.
Proof.
  intros Hno. unfold expenses. simpl.
  by rewrite filter_app, filter_cons_False, filter_nil, app_nil_r.
Qed.

Lemma expenses_create_expense db payload u :
  TransactionCreate.type payload = "expense" →
  expenses (crud.create_transaction db payload u).1 u =
  expenses db u ++ [(crud.create_transaction db payload u).2].
Proof.
  intros Hty. unfold expenses. simpl.
  by rewrite filter_app, filter_cons_True, filter_nil.
Qed.

(** Transactions whose [category_id] is the id of none of the categories join
    with none of them. *)
Lemma entries_insert_dangling cs e1 e2 (t : Transaction.t A) :
  (∀ c, c ∈ cs → Category.id c ≠ Transaction.category_id t) →
  entries cs (e1 ++ t :: e2) = entries cs (e1 ++ e2).
Proof.
  unfold entries. induction cs as [|c cs IH]; intros Hcs; [done|].
  rewrite !bind_cons, IH by (intros; apply Hcs; by right).
  rewrite !filter_app, filter_cons_False; [done|]. apply Hcs. left.
Qed.

(** With distinct keys, a transaction whose category exists adds one pair to
    the join, under the category's name; when the transaction is the last
    one, no pair of a later category has a name that only this category
    has. *)
Lemma entries_insert cs e1 e2 (t : Transaction.t A) c :
  NoDup (Category.id <$> cs) → c ∈ cs → Category.id c = Transaction.category_id t →
  ∃ r1 r2,
    entries cs (e1 ++ e2) = r1 ++ r2 ∧
    entries cs (e1 ++ t :: e2) = r1 ++ (Category.name c, Transaction.amount t) :: r2 ∧
    (e2 = [] → ∀ n, (∀ c', c' ∈ cs → Category.name c' = n → c' = c) → n ∉ r2.*1).
Proof.
  intros Hnd (cs1 & cs2 & ->)%list_elem_of_split Hid.
  assert (∀ c', c' ∈ cs1 ++ cs2 → Category.id c' ≠ Transaction.category_id t) as Hother.
  { intros c' Hc'. rewrite <- Hid. by apply (NoDup_fmap_split _ _ _ _ _ Hnd). }
  exists (entries cs1 (e1 ++ e2) ++ entries [c] e1), (entries [c] e2 ++ entries cs2 (e1 ++ e2)).
  split_and!.
  - rewrite entries_app_l, (entries_cons_l c cs2), entries_single_app_r.
    by rewrite <- !(assoc_L (++)).
  - rewrite entries_app_l, (entries_cons_l c cs2).
    rewrite (entries_insert_dangling cs1), (entries_insert_dangling cs2)
      by (intros; apply Hother, elem_of_app; auto).
    rewrite entries_single_app_r, entries_single_cons_r, entries_single.
    rewrite decide_True by done. by rewrite <- !(assoc_L (++)).
  - intros -> n Hunique. rewrite app_nil_r. simpl.
    intros (c' & t' & Hc' & _ & _ & Hname)%entries_keys.
    assert (c' = c) as -> by (apply Hunique; [apply elem_of_app; right; by right|done]).
    apply (Hother c); [apply elem_of_app; by right|done].
Qed.

(** The same for the amounts the report adds up under a name. *)
Lemma group_amounts_insert cs e1 e2 (t : Transaction.t A) c n :
  NoDup (Category.id <$> cs) → c ∈ cs → Category.id c = Transaction.category_id t →
  ∃ l1 l2,
    group_amounts n (entries cs (e1 ++ e2)) = l1 ++ l2 ∧
    group_amounts n (entries cs (e1 ++ t :: e2)) =
      l1 ++ (if decide (Category.name c = n) then [Transaction.amount t] else []) ++ l2 ∧
    (e2 = [] → (∀ c', c' ∈ cs → Category.name c' = n → c' = c) → l2 = []).
Proof.
  intros Hnd Hc Hid.
  destruct (entries_insert cs e1 e2 t c Hnd Hc Hid) as (r1 & r2 & -> & -> & Hlast).
  exists (group_amounts n r1), (group_amounts n r2). split_and!.
  - apply group_amounts_app.
  - rewrite group_amounts_app, group_amounts_cons. by case_decide.
  - intros He2 Hunique. by apply group_amounts_nil, Hlast.
Qed.

(** What an expense whose category exists adds to its creator's report. *)
Lemma create_expense_report (add : A → A → A) db (payload : TransactionCreate.t A)
    (u : Z) (c : Category.t) :
  wf db → c ∈ categories db →
  Category.id c = TransactionCreate.category_id payload →
  TransactionCreate.type payload = "expense" →
  let report db := crud.get_spending_by_category add db u in
  let db' := (crud.create_transaction db payload u).1 in
  (∃ l1 l2,
     report_total (Category.name c) (report db) = spec.sum add (l1 ++ l2) ∧
     report_total (Category.name c) (report db') =
       spec.sum add (l1 ++ TransactionCreate.amount payload :: l2) ∧
     ((∀ c', c' ∈ categories db → Category.name c' = Category.name c → c' = c) →
        l2 = [])) ∧
  (∀ n, n ≠ Category.name c → report_total n (report db') = report_total n (report db)).
Proof.
  intros (_ & Hcs & _) Hc Hid Hty report db'. subst report db'. cbv beta.
  set (row := (crud.create_transaction db payload u).2).
  assert (∀ n, ∃ l1 l2,
    report_total n (crud.get_spending_by_category add db u) = spec.sum add (l1 ++ l2) ∧
    report_total n (crud.get_spending_by_category add
                      (crud.create_transaction db payload u).1 u) =
      spec.sum add (l1 ++ (if decide (Category.name c = n)
                           then [TransactionCreate.amount payload] else []) ++ l2) ∧
    ((∀ c', c' ∈ categories db → Category.name c' = n → c' = c) → l2 = [])) as Hn.
  { intros n. rewrite !report_total_report, expenses_create_expense by done.
    destruct (group_amounts_insert (categories db) (expenses db u) [] row c n Hcs Hc Hid)
      as (l1 & l2 & H1 & H2 & H3).
    rewrite app_nil_r in H1.
    change (Transaction.amount row) with (TransactionCreate.amount payload) in H2.
    change (categories (crud.create_transaction db payload u).1) with (categories db).
    fold row. rewrite H1, H2. exists l1, l2. split_and!; [done..|]. by apply H3. }
  split.
  - destruct (Hn (Category.name c)) as (l1 & l2 & H1 & H2 & H3).
    rewrite decide_True in H2 by done. by exists l1, l2.
  - intros n Hne. destruct (Hn n) as (l1 & l2 & H1 & H2 & _).
    rewrite decide_False in H2 by done. by rewrite H1, H2.
Qed.
End report.

(** C2. The report of [get_spending_by_category] has the rows of the
    reference aggregation: join Transaction to Category on [category_id],
    keep the rows of the owner with kind "expense", group by category name,
    sum the amounts of each group.  This holds for every addition of
    amounts, the binary64 one included.  The order of the output rows is left
    open by the source; the two lists are equal up to it. *)
Theorem get_spending_by_category_refines_spec {A} (add : A → A → A)
    (db : Session A) (owner_id : Z) :
  crud.get_spending_by_category add db owner_id ≡ₚ
  spec.spending_by_category add db owner_id.
Proof.
  apply report_total_ext.
  - rewrite get_spending_by_category_entries. apply NoDup_group_by_sum.
  - apply NoDup_omap_keys, NoDup_remove_dups.
  - intros n. rewrite report_total_report. unfold spec.spending_by_category.
    rewrite report_total_omap, spec_total_group_amounts, spec_rows_entries.
    case_decide as Hn; [done|].
    rewrite elem_of_remove_dups, (list_fmap_compose snd Category.name) in Hn.
    rewrite <- (spec_rows_entries db owner_id), <- list_fmap_compose in *.
    assert (group_amounts n
              ((λ r : Transaction.t A * Category.t,
                  (Category.name r.2, Transaction.amount r.1)) <$>
               spec.rows db owner_id) = []) as ->; [|done].
    apply group_amounts_nil. by rewrite <- list_fmap_compose.
Qed.

(** C4, as the code has it.  Creating a transaction of type "income" changes
    no report.  Creating one of type "expense" whose category exists puts its
    amount once into the sequence of amounts that the creator's report adds
    up, from left to right, under the category's name.  When no other
    category has that name the new amount comes last: the total becomes the
    old total plus the amount, in the addition of the amounts, and the amount
    alone when the name was not in the report.  The other totals of that
    report and the reports of the other users do not change.  The addition is
    any, so this is what the binary64 addition of the [Float] column does. *)
Theorem create_transaction_spending {A} (add : A → A → A)
    (db : Session A) (payload : TransactionCreate.t A) (current_user : User.t) :
  let db' := (main.create_transaction payload db current_user).1 in
  let u := User.id current_user in
  let report db v := crud.get_spending_by_category add db v in
  (TransactionCreate.type payload = "income" → ∀ v, report db' v = report db v) ∧
  (TransactionCreate.type payload = "expense" →
   ∀ c, wf db → c ∈ categories db →
     Category.id c = TransactionCreate.category_id payload →
     (∃ l1 l2,
        report_total (Category.name c) (report db u) = spec.sum add (l1 ++ l2) ∧
        report_total (Category.name c) (report db' u) =
          spec.sum add (l1 ++ TransactionCreate.amount payload :: l2)) ∧
     ((∀ c', c' ∈ categories db → Category.name c' = Category.name c → c' = c) →
        report_total (Category.name c) (report db' u) =
        Some (match report_total (Category.name c) (report db u) with
              | Some s => add s (TransactionCreate.amount payload)
              | None => TransactionCreate.amount payload
              end)) ∧
     (∀ n, n ≠ Category.name c →
        report_total n (report db' u) = report_total n (report db u)) ∧
     (∀ v, v ≠ u → report db' v = report db v)).
Proof.
  cbv zeta. unfold main.create_transaction. split.
  - intros Hty v. rewrite !get_spending_by_category_entries.
    rewrite expenses_create_other; [done|]. rewrite Hty. by intros [_ ?].
  - intros Hty c Hwf Hc Hid.
    destruct (create_expense_report add db payload (User.id current_user) c
                Hwf Hc Hid Hty) as [(l1 & l2 & H1 & H2 & Hlast) Hothers].
    split_and!.
    + by exists l1, l2.
    + intros Hunique. rewrite H2, H1, (Hlast Hunique), app_nil_r. apply sum_snoc.
    + exact Hothers.
    + intros v Hv. rewrite !get_spending_by_category_entries.
      rewrite expenses_create_other; [done|]. intros [? _]. by destruct Hv.
Qed.

Lemma create_transaction_spending_witness :
  wf float_db ∧ float_rent ∈ categories float_db ∧
  (∀ c', c' ∈ categories float_db →
     Category.name c' = Category.name float_rent → c' = float_rent) ∧
  (let db' := (main.create_transaction
                 (TransactionCreate.mk "Salary" 2500%float "income" 1) float_db alice).1 in
   crud.get_spending_by_category PrimFloat.add db' 1 =
   crud.get_spending_by_category PrimFloat.add float_db 1) ∧
  (let db' := (main.create_transaction
                 (TransactionCreate.mk "Garage" 64%float "expense" 1) float_db alice).1 in
   report_total "Rent" (crud.get_spending_by_category PrimFloat.add db' 1) =
   Some (PrimFloat.add 1e16 64)).
Proof.
  assert (wf float_db) as Hwf by (repeat split; by apply (bool_decide_unpack _)).
  assert (float_rent ∈ categories float_db) as Hin by (vm_compute; left).
  assert (∀ c', c' ∈ categories float_db →
            Category.name c' = Category.name float_rent → c' = float_rent) as Hunique.
  { intros c' Hc' _. vm_compute in Hc'. by apply list_elem_of_singleton in Hc'. }
  split_and!; [done..| |].
  - destruct (create_transaction_spending PrimFloat.add float_db
                (TransactionCreate.mk "Salary" 2500%float "income" 1) alice)
      as [Hincome _].
    exact (Hincome eq_refl 1).
  - destruct (create_transaction_spending PrimFloat.add float_db
                (TransactionCreate.mk "Garage" 64%float "expense" 1) alice)
      as [_ Hexpense].
    destruct (Hexpense eq_refl float_rent Hwf Hin eq_refl) as (_ & Htotal & _).
    exact (Htotal Hunique).
Defined.

(** In binary64 a total of 1e16 does not move when an expense of 1 is added
    to it: the total after the creation minus the total before it is 0, not
    the amount of the expense. *)
Lemma float_total_not_increased :
  ¬ (∀ (db : Session float) (payload : TransactionCreate.t float)
       (current_user : User.t) (c : Category.t) (s s' : float),
       wf db → TransactionCreate.type payload = "expense" →
       c ∈ categories db → Category.id c = TransactionCreate.category_id payload →
       let db' := (main.create_transaction payload db current_user).1 in
       let u := User.id current_user in
       report_total (Category.name c)
         (crud.get_spending_by_category PrimFloat.add db u) = Some s →
       report_total (Category.name c)
         (crud.get_spending_by_category PrimFloat.add db' u) = Some s' →
       PrimFloat.sub s' s = TransactionCreate.amount payload).
Proof.
  intros Hclaim.
  assert (wf float_db) as Hwf by (repeat split; by apply (bool_decide_unpack _)).
  assert (float_rent ∈ categories float_db) as Hin by (vm_compute; left).
  pose proof (Hclaim float_db (TransactionCreate.mk "Stamp" 1%float "expense" 1)
                alice float_rent 1e16%float 1e16%float Hwf eq_refl Hin eq_refl
                eq_refl eq_refl) as Hdiff.
  apply (f_equal (λ x, PrimFloat.eqb x 1%float)) in Hdiff.
  vm_compute in Hdiff. discriminate.
Qed.

(** C5, as the code has it.  A name is in the report of [owner_id] only if
    an expense of [owner_id] references a category with that name: if no
    expense of the owner references the category or another category of
    the same name, the name is not in the report. *)
Theorem unreferenced_name_not_reported {A} (add : A → A → A) (db : Session A)
    (owner_id : Z) (c : Category.t) :
  (∀ c' t, c' ∈ categories db → Category.name c' = Category.name c →
     t ∈ transactions db → Transaction.owner_id t = owner_id →
     Transaction.type t = "expense" → Transaction.category_id t ≠ Category.id c') →
  Category.name c ∉ (crud.get_spending_by_category add db owner_id).*1.
Proof.
  intros Hnone (c' & t & Hc' & Ht & Hid & Hu & Hty & Hname)%reported_names.
  by apply (Hnone c' t).
Qed.

Lemma unreferenced_name_not_reported_witness :
  (∀ c' t, c' ∈ categories sample_db → Category.name c' = Category.name rent →
     t ∈ transactions sample_db → Transaction.owner_id t = 1 →
     Transaction.type t = "expense" → Transaction.category_id t ≠ Category.id c') ∧
  Category.name rent ∉ (crud.get_spending_by_category Z.add sample_db 1).*1.
Proof.
  assert (∀ c' t, c' ∈ categories sample_db → Category.name c' = Category.name rent →
     t ∈ transactions sample_db → Transaction.owner_id t = 1 →
     Transaction.type t = "expense" → Transaction.category_id t ≠ Category.id c') as Hnone.
  { intros c' t Hc' Hname Ht Hu _.
    vm_compute in Hc'. vm_compute in Ht.
    repeat (apply elem_of_cons in Hc' as [->|Hc']); [done| |by apply elem_of_nil in Hc'].
    repeat (apply elem_of_cons in Ht as [->|Ht]); [done|done|by apply elem_of_nil in Ht]. }
  split; [exact Hnone|].
  exact (unreferenced_name_not_reported Z.add sample_db 1 rent Hnone).
Defined.

(** The second "Food" category of [two_food_db] has no expense, and "Food" is
    in the report all the same: rows are grouped by name. *)
Lemma unreferenced_category_name_reported :
  ¬ (∀ (db : Session Z) (owner_id : Z) (c : Category.t),
       c ∈ categories db →
       (∀ t, t ∈ transactions db → Transaction.owner_id t = owner_id →
          Transaction.type t = "expense" → Transaction.category_id t ≠ Category.id c) →
       Category.name c ∉ (crud.get_spending_by_category Z.add db owner_id).*1).
Proof.
  intros Hclaim. apply (Hclaim two_food_db 1 second_food).
  - vm_compute. right. left.
  - intros t Ht _ _. vm_compute in Ht.
    apply list_elem_of_singleton in Ht as ->. by vm_compute.
  - vm_compute. left.
Qed.

(** C10. [create_transaction] stores the payload's [category_id] as it is,
    for every user and every integer: nothing looks the category up.  When
    the id is that of a category of another user and the transaction is an
    expense, the creator's report has that category's name, and the amount
    of the transaction is once among the amounts added up under it; when no
    other category has the name, the total under it is the old total plus the
    amount (the amount alone when the name was not in the report). *)
Theorem create_transaction_unchecked_category {A} (add : A → A → A)
    (db : Session A) (current_user : User.t) (payload : TransactionCreate.t A) :
  let '(db', row) := main.create_transaction payload db current_user in
  let u := User.id current_user in
  let report db := crud.get_spending_by_category add db u in
  (Transaction.category_id row = TransactionCreate.category_id payload ∧
   Transaction.owner_id row = u ∧
   transactions db' = transactions db ++ [row]) ∧
  ∀ c, wf db → c ∈ categories db →
    Category.id c = TransactionCreate.category_id payload →
    Category.owner_id c ≠ u →
    TransactionCreate.type payload = "expense" →
    Category.name c ∈ (report db').*1 ∧
    (∃ l1 l2,
       report_total (Category.name c) (report db) = spec.sum add (l1 ++ l2) ∧
       report_total (Category.name c) (report db') =
         spec.sum add (l1 ++ TransactionCreate.amount payload :: l2)) ∧
    ((∀ c', c' ∈ categories db → Category.name c' = Category.name c → c' = c) →
       report_total (Category.name c) (report db') =
       Some (match report_total (Category.name c) (report db) with
             | Some s => add s (TransactionCreate.amount payload)
             | None => TransactionCreate.amount payload
             end)).
Proof.
  simpl. split; [done|]. intros c Hwf Hc Hid _ Hty.
  destruct (create_expense_report add db payload (User.id current_user) c
              Hwf Hc Hid Hty) as [(l1 & l2 & H1 & H2 & Hlast) _].
  cbv zeta in H1, H2. simpl in H2. split_and!.
  - apply reported_names. eexists c, _. simpl.
    split_and!; [done|apply elem_of_app; right; left|done..].
  - by exists l1, l2.
  - intros Hunique. rewrite H2, H1, (Hlast Hunique), app_nil_r. apply sum_snoc.
Qed.

Lemma create_transaction_unchecked_category_witness :
  wf sample_db ∧ rent ∈ categories sample_db ∧
  Category.owner_id rent ≠ User.id alice ∧
  (∀ c', c' ∈ categories sample_db → Category.name c' = Category.name rent → c' = rent) ∧
  (let db' := (main.create_transaction
                 (TransactionCreate.mk "Sublet" 40000 "expense" 2) sample_db alice).1 in
   report_total "Rent" (crud.get_spending_by_category Z.add sample_db 1) = None ∧
   report_total "Rent" (crud.get_spending_by_category Z.add db' 1) = Some 40000).
Proof.
  assert (wf sample_db) as Hwf by (repeat split; by apply (bool_decide_unpack _)).
  assert (rent ∈ categories sample_db) as Hin by (vm_compute; right; left).
  assert (Category.owner_id rent ≠ User.id alice) as Hne by (by vm_compute).
  assert (∀ c', c' ∈ categories sample_db →
            Category.name c' = Category.name rent → c' = rent) as Hunique.
  { intros c' Hc' Hname. vm_compute in Hc'.
    repeat (apply elem_of_cons in Hc' as [->|Hc']); [done|done|by apply elem_of_nil in Hc']. }
  split_and!; [done..|]. cbv zeta. split; [reflexivity|].
  destruct (create_transaction_unchecked_category Z.add sample_db alice
              (TransactionCreate.mk "Sublet" 40000 "expense" 2)) as [_ Hreport].
  destruct (Hreport rent Hwf Hin eq_refl Hne eq_refl) as (_ & _ & Htotal).
  exact (Htotal Hunique).
Defined.

(** ** The type of a transaction *)

Lemma sample_db_reachable : main.reachable sample_hash sample_db.
Proof.
  unfold sample_db. cbv zeta.
  repeat first
    [ apply main.reach_create_transaction | apply main.reach_create_category
    | apply main.reach_create_user | apply main.reach_empty ];
    vm_compute; repeat first [left | right].
Qed.

(** C3, at the failing input.  [create_transaction] and [update_transaction]
    store the payload's type string as it is: the handlers reach a database
    with a transaction of type "transfer", neither "income" nor "expense". *)
Theorem transaction_type_unconstrained :
  (∀ (db : Session Z) payload u,
     Transaction.type (crud.create_transaction db payload u).2 =
     TransactionCreate.type payload) ∧
  (∀ (db : Session Z) i payload u t,
     (crud.update_transaction db i payload u).2 = Some t →
     Transaction.type t = TransactionCreate.type payload) ∧
  main.reachable sample_hash transfer_db ∧
  ∃ t, t ∈ transactions transfer_db ∧ Transaction.type t = "transfer" ∧
       Transaction.type t ≠ "income" ∧ Transaction.type t ≠ "expense".
Proof.
  split_and!.
  - done.
  - intros db i payload u t. unfold crud.update_transaction.
    destruct (crud.get_transaction db i u); [|done].
    cbv zeta. unfold snd. rewrite setattr_dict. by intros [= <-].
  - apply main.reach_create_transaction; [apply sample_db_reachable|].
    vm_compute. left.
  - exists (Transaction.mk 3 "Move" 100 "transfer" 1 1).
    split_and!; [|done..]. vm_compute. do 2 right. left.
Qed.

(** * Further properties *)

(** ** Listings with offset and limit *)

Lemma filter_none {X} (P : X → Prop) `{!∀ x, Decision (P x)} (l : list X) :
  (∀ x, x ∈ l → ¬ P x) → filter P l = [].
Proof.
  intros Hl. induction l as [|x l IH]; [done|].
  rewrite filter_cons_False by (apply Hl; left). apply IH. intros; apply Hl. by right.
Qed.

Lemma filter_all {X} (P : X → Prop) `{!∀ x, Decision (P x)} (l : list X) :
  (∀ x, x ∈ l → P x) → filter P l = l.
Proof.
  intros Hl. induction l as [|x l IH]; [done|].
  rewrite filter_cons_True by (apply Hl; left). f_equal. apply IH.
  intros; apply Hl. by right.
Qed.

Lemma offset_limit_elem {X} (skip limit : Z) (rows : list X) x :
  x ∈ crud.offset_limit skip limit rows → x ∈ rows.
Proof.
  unfold crud.offset_limit. case_decide; intros Hx.
  - by apply (subseteq_drop (Z.to_nat skip)).
  - by apply (subseteq_drop (Z.to_nat skip)), (subseteq_take (Z.to_nat limit)).
Qed.

Lemma offset_limit_add {X} (skip limit1 limit2 : Z) (rows : list X) :
  0 ≤ skip → 0 ≤ limit1 → 0 ≤ limit2 →
  crud.offset_limit skip (limit1 + limit2) rows =
  crud.offset_limit skip limit1 rows ++ crud.offset_limit (skip + limit1) limit2 rows.
Proof.
  intros Hskip H1 H2. unfold crud.offset_limit. rewrite !decide_False by lia.
  rewrite !Z2Nat.inj_add by lia. by rewrite <- take_take_drop, drop_drop.
Qed.

Lemma offset_limit_length {X} (skip limit : Z) (rows : list X) :
  0 ≤ skip → 0 ≤ limit →
  Z.of_nat (length (crud.offset_limit skip limit rows)) =
  limit `min` (0 `max` (Z.of_nat (length rows) - skip)).
Proof.
  intros Hskip Hlimit. unfold crud.offset_limit. rewrite decide_False by lia.
  rewrite length_take, length_drop. lia.
Qed.

Lemma offset_limit_bound {X} (skip limit : Z) (rows : list X) :
  0 ≤ limit → (length (crud.offset_limit skip limit rows) ≤ Z.to_nat limit)%nat.
Proof.
  intros Hlimit. unfold crud.offset_limit. rewrite decide_False by lia.
  rewrite length_take. lia.
Qed.

(** Without an offset and without a limit, every row. *)
Lemma offset_limit_all {X} (skip limit : Z) (rows : list X) :
  skip ≤ 0 → limit < 0 → crud.offset_limit skip limit rows = rows.
Proof.
  intros Hskip Hlimit. unfold crud.offset_limit. rewrite decide_True by done.
  by replace (Z.to_nat skip) with 0%nat by lia.
Qed.

Lemma offset_limit_full {X} (n : nat) (rows : list X) :
  (length rows ≤ n)%nat → crud.offset_limit 0 (Z.of_nat n) rows = rows.
Proof.
  intros Hn. unfold crud.offset_limit. rewrite decide_False by lia.
  simpl. rewrite drop_0, take_ge; [done|lia].
Qed.

Lemma NoDup_fmap_take_drop {X} (f : X → Z) (n : nat) (l : list X) x y :
  NoDup (f <$> l) → x ∈ take n l → y ∈ drop n l → f x ≠ f y.
Proof.
  rewrite <- (take_drop n l) at 1. rewrite fmap_app.
  intros (_ & Hdisj & _)%NoDup_app Hx Hy Heq.
  apply (Hdisj (f x)); [by apply list_elem_of_fmap_2|].
  rewrite Heq. by apply list_elem_of_fmap_2.
Qed.

Lemma NoDup_fmap_drop {X} (f : X → Z) (n : nat) (l : list X) :
  NoDup (f <$> l) → NoDup (f <$> drop n l).
Proof.
  rewrite <- (take_drop n l) at 1. rewrite fmap_app.
  by intros (_ & _ & ?)%NoDup_app.
Qed.

Lemma NoDup_fmap_filter {X} (f : X → Z) (P : X → Prop) `{!∀ x, Decision (P x)}
    (l : list X) :
  NoDup (f <$> l) → NoDup (f <$> filter P l).
Proof.
  induction l as [|x l IH]; [done|].
  rewrite fmap_cons, filter_cons. intros [Hx Hnd]%NoDup_cons.
  case_decide; [|by apply IH]. rewrite fmap_cons. apply NoDup_cons.
  split; [|by apply IH]. intros (y & Hy & [_ Hin]%list_elem_of_filter)%list_elem_of_fmap.
  apply Hx. rewrite Hy. by apply list_elem_of_fmap_2.
Qed.

(** A page and a later page that starts where the first ends, or after, have
    no key in common. *)
Lemma offset_limit_disjoint {X} (f : X → Z) (skip1 limit1 skip2 limit2 : Z)
    (rows : list X) x y :
  NoDup (f <$> rows) → 0 ≤ skip1 → 0 ≤ limit1 → skip1 + limit1 ≤ skip2 →
  x ∈ crud.offset_limit skip1 limit1 rows →
  y ∈ crud.offset_limit skip2 limit2 rows → f x ≠ f y.
Proof.
  intros Hnd Hskip Hlimit Hle Hx Hy.
  assert (y ∈ drop (Z.to_nat skip2) rows) as Hy'.
  { unfold crud.offset_limit in Hy. case_decide; [done|].
    by apply (subseteq_take (Z.to_nat limit2)). }
  unfold crud.offset_limit in Hx. rewrite decide_False in Hx by lia.
  apply (NoDup_fmap_take_drop f (Z.to_nat limit1) (drop (Z.to_nat skip1) rows));
    [by apply NoDup_fmap_drop|done|].
  replace (Z.to_nat skip2)
    with (Z.to_nat skip1 + Z.to_nat limit1 + Z.to_nat (skip2 - (skip1 + limit1)))%nat
    in Hy' by lia.
  rewrite <- !drop_drop in Hy'. by apply (subseteq_drop _) in Hy'.
Qed.

Section listing.
Context {A : Type}.
Implicit Types (db : Session A) (t : Transaction.t A).

Lemma get_transactions_elem db u (skip limit : Z) t :
  t ∈ crud.get_transactions db u skip limit →
  t ∈ transactions db ∧ Transaction.owner_id t = u.
Proof.
  unfold crud.get_transactions.
  intros Ht%offset_limit_elem. by apply list_elem_of_filter in Ht as [? ?].
Qed.

(** X1. For every offset and limit, negative ones included, a listing shows
    only rows of the table that the caller owns.  With a limit that is not
    negative it shows at most [limit] rows; with a negative limit and no
    positive offset it shows every row of the caller. *)
Theorem get_transactions_owned db u (skip limit : Z) :
  (∀ t, t ∈ crud.get_transactions db u skip limit →
     t ∈ transactions db ∧ Transaction.owner_id t = u) ∧
  (0 ≤ limit → (length (crud.get_transactions db u skip limit) ≤ Z.to_nat limit)%nat) ∧
  (skip ≤ 0 → limit < 0 →
     crud.get_transactions db u skip limit =
     filter (λ t, Transaction.owner_id t = u) (transactions db)).
Proof.
  split_and!; [apply get_transactions_elem|..]; unfold crud.get_transactions.
  - apply offset_limit_bound.
  - apply offset_limit_all.
Qed.

(** X2. For offsets and limits that are not negative, consecutive pages join
    into one page: the page of [limit1 + limit2] rows at [skip] is the page
    of [limit1] rows at [skip] followed by the page of [limit2] rows at
    [skip + limit1].  A page has [limit1] rows, or what is left of the rows
    of the table that the caller owns after [skip] of them, when that is
    less. *)
Theorem get_transactions_pages db u (skip limit1 limit2 : Z) :
  0 ≤ skip → 0 ≤ limit1 → 0 ≤ limit2 →
  crud.get_transactions db u skip (limit1 + limit2) =
    crud.get_transactions db u skip limit1 ++
    crud.get_transactions db u (skip + limit1) limit2 ∧
  Z.of_nat (length (crud.get_transactions db u skip limit1)) =
    limit1 `min`
      (0 `max` (Z.of_nat (length (filter (λ t, Transaction.owner_id t = u)
                                    (transactions db))) - skip)).
Proof.
  intros Hskip H1 H2. unfold crud.get_transactions.
  split; [by apply offset_limit_add|by apply offset_limit_length].
Qed.

(** X3. With distinct primary keys, a page with an offset and a limit that
    are not negative and a page that starts where it ends, or after, share no
    transaction. *)
Theorem get_transactions_pages_disjoint db u (skip1 limit1 skip2 limit2 : Z) t1 t2 :
  wf db → 0 ≤ skip1 → 0 ≤ limit1 → skip1 + limit1 ≤ skip2 →
  t1 ∈ crud.get_transactions db u skip1 limit1 →
  t2 ∈ crud.get_transactions db u skip2 limit2 →
  Transaction.id t1 ≠ Transaction.id t2.
Proof.
  intros (_ & _ & Hnd) Hskip Hlimit Hle. unfold crud.get_transactions.
  apply offset_limit_disjoint; [|done..]. by apply NoDup_fmap_filter.
Qed.

(** X4. Listing and single-row access agree: with distinct primary keys, a
    listed transaction is the one [get_transaction] returns for its id and
    the caller, and a transaction that [get_transaction] returns is in the
    caller's full listing. *)
Theorem get_transactions_get_transaction db u :
  wf db →
  (∀ (skip limit : Z) t, t ∈ crud.get_transactions db u skip limit →
     crud.get_transaction db (Transaction.id t) u = Some t) ∧
  (∀ i t, crud.get_transaction db i u = Some t →
     t ∈ crud.get_transactions db u 0 (Z.of_nat (length (transactions db)))).
Proof.
  intros Hwf. split.
  - intros skip limit t [Ht <-]%get_transactions_elem.
    by apply get_transaction_own.
  - intros i t (_ & Hu & l1 & l2 & Hdb & _)%get_transaction_Some.
    unfold crud.get_transactions. rewrite offset_limit_full by apply length_filter.
    apply list_elem_of_filter. split; [done|]. rewrite Hdb.
    apply elem_of_app. right. left.
Qed.
End listing.

Lemma get_transactions_owned_witness :
  (0 : Z) ≤ 1 ∧ (0 : Z) ≤ 0 ∧ (-1 : Z) < 0 ∧
  (length (crud.get_transactions tea_db 1 0 1) ≤ 1)%nat ∧
  crud.get_transactions tea_db 1 0 (-1) = [coffee; tea].
Proof.
  destruct (get_transactions_owned tea_db 1 0 1) as (_ & Hbound & _).
  destruct (get_transactions_owned tea_db 1 0 (-1)) as (_ & _ & Hall).
  split_and!; [lia..| |].
  - apply Hbound. lia.
  - rewrite Hall by lia. reflexivity.
Defined.

Lemma get_transactions_pages_witness :
  (0 : Z) ≤ 0 ∧ (0 : Z) ≤ 1 ∧
  crud.get_transactions tea_db 1 0 (1 + 1) =
    crud.get_transactions tea_db 1 0 1 ++ crud.get_transactions tea_db 1 (0 + 1) 1 ∧
  Z.of_nat (length (crud.get_transactions tea_db 1 1 5)) = 1.
Proof.
  destruct (get_transactions_pages tea_db 1 0 1 1) as [Hjoin _]; [lia..|].
  destruct (get_transactions_pages tea_db 1 1 5 0) as [_ Hlength]; [lia..|].
  split_and!; [lia..|exact Hjoin|]. rewrite Hlength. reflexivity.
Defined.

Lemma get_transactions_pages_disjoint_witness :
  wf tea_db ∧ (0 : Z) ≤ 0 ∧ (0 : Z) ≤ 1 ∧ (0 + 1 : Z) ≤ 1 ∧
  coffee ∈ crud.get_transactions tea_db 1 0 1 ∧
  tea ∈ crud.get_transactions tea_db 1 1 1 ∧
  Transaction.id coffee ≠ Transaction.id tea.
Proof.
  assert (wf tea_db) as Hwf by (repeat split; by apply (bool_decide_unpack _)).
  assert (coffee ∈ crud.get_transactions tea_db 1 0 1) as H1 by (vm_compute; left).
  assert (tea ∈ crud.get_transactions tea_db 1 1 1) as H2 by (vm_compute; left).
  split_and!; [done|lia|lia|lia|done|done|].
  apply (get_transactions_pages_disjoint tea_db 1 0 1 1 1 coffee tea Hwf);
    [lia|lia|lia|done|done].
Defined.

Lemma get_transactions_get_transaction_witness :
  wf tea_db ∧
  crud.get_transaction tea_db 3 1 = Some tea ∧
  tea ∈ crud.get_transactions tea_db 1 0 (Z.of_nat (length (transactions tea_db))).
Proof.
  assert (wf tea_db) as Hwf by (repeat split; by apply (bool_decide_unpack _)).
  destruct (get_transactions_get_transaction tea_db 1 Hwf) as [Hlisted Hget].
  split_and!; [done| |].
  - apply (Hlisted 1 1 tea). vm_compute. left.
  - apply (Hget 3 tea). reflexivity.
Defined.

(** ** Categories *)

Section categories.
Context {A : Type}.
Implicit Types (db : Session A) (c : Category.t).

Lemma get_category_None db i u :
  crud.get_category db i u = None ↔
  ∀ c, c ∈ categories db → Category.id c = i → Category.owner_id c ≠ u.
Proof.
  unfold crud.get_category. rewrite first_filter_None.
  split; intros H r Hr; [|intros []]; naive_solver.
Qed.

Lemma get_category_own db c :
  wf db → c ∈ categories db →
  crud.get_category db (Category.id c) (Category.owner_id c) = Some c.
Proof.
  intros (_ & Hnd & _) Hc.
  destruct (crud.get_category db (Category.id c) (Category.owner_id c)) as [r|] eqn:E.
  - unfold crud.get_category in E.
    apply first_filter_Some in E as [[Hid _] (l1 & l2 & Hdb & _)].
    f_equal. apply (NoDup_fmap_key_inj Category.id (categories db)); auto.
    rewrite Hdb. apply elem_of_app. right. left.
  - rewrite get_category_None in E. by destruct (E c Hc).
Qed.

(** X5. With distinct primary keys, [get_category] returns a category to its
    owner and to nobody else; for another user the outcome is that of an id
    no category has. *)
Theorem get_category_isolation db c :
  wf db → c ∈ categories db →
  crud.get_category db (Category.id c) (Category.owner_id c) = Some c ∧
  (∀ u, u ≠ Category.owner_id c → crud.get_category db (Category.id c) u = None) ∧
  (∀ i u, i ∉ Category.id <$> categories db → crud.get_category db i u = None).
Proof.
  intros Hwf Hc. split_and!.
  - by apply get_category_own.
  - intros u Hu. apply get_category_None. intros r Hr Hid.
    destruct Hwf as (_ & Hnd & _).
    by rewrite (NoDup_fmap_key_inj Category.id _ c r Hnd Hc Hr Hid).
  - intros i u Hi. apply get_category_None. intros r Hr <-.
    destruct Hi. by apply list_elem_of_fmap_2.
Qed.

(** X6. A created category carries the payload's name, is returned to its
    creator by [get_category] and comes last in the creator's full listing;
    the listings of the other users and the transaction table are as
    before. *)
Theorem create_category_listed db (category : CategoryCreate.t) (u : Z) :
  let '(db', row) := crud.create_category db category u in
  Category.name row = CategoryCreate.name category ∧
  crud.get_category db' (Category.id row) u = Some row ∧
  crud.get_categories db' u 0 (Z.of_nat (S (length (categories db)))) =
    crud.get_categories db u 0 (Z.of_nat (length (categories db))) ++ [row] ∧
  (∀ v (skip limit : Z), v ≠ u →
     crud.get_categories db' v skip limit = crud.get_categories db v skip limit) ∧
  transactions db' = transactions db ∧ users db' = users db.
Proof.
  simpl. set (row := Category.mk _ _ _). split_and!; [done| | | |done..].
  - unfold crud.get_category. simpl.
    rewrite filter_app, filter_cons_True, filter_nil by done.
    rewrite filter_none; [done|]. intros r Hr [Hid _].
    destruct (next_id_fresh (Category.id <$> categories db)).
    rewrite <- Hid. by apply list_elem_of_fmap_2.
  - unfold crud.get_categories. cbn [categories].
    rewrite filter_app, filter_cons_True, filter_nil by done.
    pose proof (length_filter (λ c, Category.owner_id c = u) (categories db)).
    rewrite !offset_limit_full; [done|done|]. rewrite length_app. simpl. lia.
  - intros v skip limit Hv. unfold crud.get_categories. simpl.
    by rewrite filter_app, filter_cons_False, filter_nil, app_nil_r.
Qed.




End categories.

Lemma get_category_isolation_witness :
  wf sample_db ∧ rent ∈ categories sample_db ∧
  crud.get_category sample_db 2 2 = Some rent ∧
  crud.get_category sample_db 2 1 = None.
Proof.
  assert (wf sample_db) as Hwf by (repeat split; by apply (bool_decide_unpack _)).
  assert (rent ∈ categories sample_db) as Hin by (vm_compute; right; left).
  destruct (get_category_isolation sample_db rent Hwf Hin) as (Hown & Hother & _).
  split_and!; [done..|]. apply (Hother 1). by vm_compute.
Defined.


(** ** Users and login *)

Section users.
Context {A : Type}.
Implicit Types (db : Session A).

Lemma get_user_by_email_None db email :
  crud.get_user_by_email db email = None ↔
  ∀ u, u ∈ users db → User.email u ≠ email.
Proof. unfold crud.get_user_by_email. by rewrite first_filter_None. Qed.

Lemma get_user_by_email_snoc db email new :
  crud.get_user_by_email
    (mkSession (users db ++ [new]) (categories db) (transactions db)) email =
  match crud.get_user_by_email db email with
  | Some u => Some u
  | None => if decide (User.email new = email) then Some new else None
  end.
Proof.
  unfold crud.get_user_by_email, first. simpl.
  rewrite filter_app, filter_cons, filter_nil.
  destruct (filter _ (users db)); [|done]. by case_decide.
Qed.

Lemma users_update_transaction db i payload u :
  users (crud.update_transaction db i payload u).1 = users db.
Proof. unfold crud.update_transaction. by destruct (crud.get_transaction db i u). Qed.

Lemma users_delete_transaction db i u :
  users (crud.delete_transaction db i u).1 = users db.
Proof. unfold crud.delete_transaction. by destruct (crud.get_transaction db i u). Qed.

Lemma create_user_fresh (get_password_hash : string → string) db
    (user : UserCreate.t) :
  (∀ u, u ∈ users db → User.email u ≠ UserCreate.email user) →
  let new := User.mk (next_id (User.id <$> users db)) (UserCreate.email user)
               (get_password_hash (UserCreate.password user)) in
  main.create_user get_password_hash user db =
    (mkSession (users db ++ [new]) (categories db) (transactions db), inr new) ∧
  crud.get_user_by_email (main.create_user get_password_hash user db).1
    (UserCreate.email user) = Some new.
Proof.
  intros Hfresh%get_user_by_email_None. unfold main.create_user. rewrite Hfresh.
  simpl. split; [done|]. rewrite get_user_by_email_snoc, Hfresh. simpl.
  by rewrite decide_True.
Qed.

(** X8. Registering an email that no user has appends one user with that
    email and the hash of the password; [get_user_by_email] then finds that
    user, and finds for every other email what it found before. *)
Theorem create_user_registers (get_password_hash : string → string) db
    (user : UserCreate.t) :
  (∀ u, u ∈ users db → User.email u ≠ UserCreate.email user) →
  ∃ db' new, main.create_user get_password_hash user db = (db', inr new) ∧
    users db' = users db ++ [new] ∧
    User.email new = UserCreate.email user ∧
    User.hashed_password new = get_password_hash (UserCreate.password user) ∧
    (∀ u, u ∈ users db → User.id u ≠ User.id new) ∧
    crud.get_user_by_email db' (UserCreate.email user) = Some new ∧
    (∀ email, email ≠ UserCreate.email user →
       crud.get_user_by_email db' email = crud.get_user_by_email db email) ∧
    categories db' = categories db ∧ transactions db' = transactions db.
Proof.
  intros Hfresh%get_user_by_email_None. unfold main.create_user. rewrite Hfresh.
  simpl. eexists _, _. split; [done|]. simpl.
  split_and!; [done..| | | |done|done].
  - intros u Hu Hid. destruct (next_id_fresh (User.id <$> users db)).
    rewrite <- Hid. by apply list_elem_of_fmap_2.
  - rewrite get_user_by_email_snoc, Hfresh. simpl. by rewrite decide_True.
  - intros email Hne. rewrite get_user_by_email_snoc. simpl.
    destruct (crud.get_user_by_email db email); [done|]. by rewrite decide_False.
Qed.

(** X9. Whatever a registration did, registering its email once more, with
    any password, raises the 400 and changes nothing. *)
Theorem create_user_twice (get_password_hash : string → string) db
    (user : UserCreate.t) (password' : string) :
  let db' := (main.create_user get_password_hash user db).1 in
  main.create_user get_password_hash
    (UserCreate.mk (UserCreate.email user) password') db' =
  (db', inl (mkHTTPException 400 "Email already registered")).
Proof.
  cbv zeta. unfold main.create_user at 2 3.
  destruct (crud.get_user_by_email db (UserCreate.email user)) as [u|] eqn:E; simpl.
  - unfold main.create_user. simpl. by rewrite E.
  - unfold main.create_user. simpl. rewrite get_user_by_email_snoc, E. simpl.
    by rewrite decide_True.
Qed.

Lemma reachable_emails_unique (get_password_hash : string → string) db :
  main.reachable get_password_hash db → NoDup (User.email <$> users db).
Proof.
  induction 1 as [|db user _ IH|db payload cu _ IH _|db i payload cu _ IH _
                  |db i cu _ IH _|db category cu _ IH _];
    [apply NoDup_nil_2| |done| | |done].
  - unfold main.create_user.
    destruct (crud.get_user_by_email db (UserCreate.email user)) eqn:E; [done|].
    simpl. rewrite fmap_app. apply NoDup_app. split_and!; [done| |apply NoDup_singleton].
    intros e (u & He & Hu)%list_elem_of_fmap Hnew%list_elem_of_singleton.
    subst e. simpl in Hnew. rewrite get_user_by_email_None in E. by apply (E u).
  - unfold main.update_transaction. by rewrite users_update_transaction.
  - unfold main.delete_transaction. by rewrite users_delete_transaction.
Qed.

(** X10. In every database the handlers can produce, no two users have the
    same email, every transaction and every category is owned by a
    registered user, and the primary keys are distinct. *)
Theorem reachable_invariants (get_password_hash : string → string) db :
  main.reachable get_password_hash db →
  NoDup (User.email <$> users db) ∧
  (∀ t, t ∈ transactions db → Transaction.owner_id t ∈ User.id <$> users db) ∧
  (∀ c, c ∈ categories db → Category.owner_id c ∈ User.id <$> users db) ∧
  wf db.
Proof.
  intros Hreach. split_and!; [by eapply reachable_emails_unique|..|by eapply reachable_wf].
  - induction Hreach as [|db user _ IH|db payload cu _ IH Hcu|db i payload cu _ IH _
                         |db i cu _ IH _|db category cu _ IH _];
      intros t Ht.
    + by apply elem_of_nil in Ht.
    + unfold main.create_user in *.
      destruct (crud.get_user_by_email db (UserCreate.email user)); [by apply IH|].
      simpl in *. rewrite fmap_app. apply elem_of_app. left. by apply IH.
    + simpl in *. apply elem_of_app in Ht as [Ht|Ht%list_elem_of_singleton];
        [by apply IH|]. subst t. simpl. by apply list_elem_of_fmap_2.
    + unfold main.update_transaction in *. rewrite users_update_transaction.
      unfold crud.update_transaction in Ht.
      destruct (crud.get_transaction db i (User.id cu)) as [t0|] eqn:E; [|by apply IH].
      simpl in Ht. apply list_elem_of_fmap in Ht as (r & -> & Hr).
      case_decide; [|by apply IH].
      change (setattr _ _) with (foldl setattr t0 (TransactionCreate.dict payload)).
      rewrite setattr_dict. simpl.
      apply get_transaction_Some in E as (_ & _ & l1 & l2 & Hdb & _).
      apply IH. rewrite Hdb. apply elem_of_app. right. left.
    + unfold main.delete_transaction in *. rewrite users_delete_transaction.
      unfold crud.delete_transaction in Ht.
      destruct (crud.get_transaction db i (User.id cu)); [|by apply IH].
      simpl in Ht. apply list_elem_of_filter in Ht as [_ Ht]. by apply IH.
    + simpl in *. by apply IH.
  - induction Hreach as [|db user _ IH|db payload cu _ IH _|db i payload cu _ IH _
                         |db i cu _ IH _|db category cu _ IH Hcu];
      intros c Hc.
    + by apply elem_of_nil in Hc.
    + unfold main.create_user in *.
      destruct (crud.get_user_by_email db (UserCreate.email user)); [by apply IH|].
      simpl in *. rewrite fmap_app. apply elem_of_app. left. by apply IH.
    + simpl in *. by apply IH.
    + unfold main.update_transaction in *. rewrite users_update_transaction.
      apply IH. unfold crud.update_transaction in Hc.
      by destruct (crud.get_transaction db i (User.id cu)).
    + unfold main.delete_transaction in *. rewrite users_delete_transaction.
      apply IH. unfold crud.delete_transaction in Hc.
      by destruct (crud.get_transaction db i (User.id cu)).
    + simpl in *. apply elem_of_app in Hc as [Hc|Hc%list_elem_of_singleton];
        [by apply IH|]. subst c. simpl. by apply list_elem_of_fmap_2.
Qed.

(** X19. In every database the handlers can produce, looking a registered
    user up by email returns that user, so login checks the password
    against that user's own hash. *)
Theorem get_user_by_email_registered (get_password_hash : string → string) db u :
  main.reachable get_password_hash db → u ∈ users db →
  crud.get_user_by_email db (User.email u) = Some u.
Proof.
  intros Hnd%reachable_emails_unique Hu.
  destruct (crud.get_user_by_email db (User.email u)) as [r|] eqn:E.
  - unfold crud.get_user_by_email in E.
    apply first_filter_Some in E as [Hemail (l1 & l2 & Hdb & _)].
    assert (r ∈ users db) as Hr by (rewrite Hdb; apply elem_of_app; right; left).
    f_equal. clear Hdb. revert Hnd Hu Hr Hemail.
    induction (users db) as [|x l IH]; intros Hnd Hu Hr Hemail;
      [by apply elem_of_nil in Hu|].
    rewrite fmap_cons in Hnd. apply NoDup_cons in Hnd as [Hx Hnd].
    apply elem_of_cons in Hu as [->|Hu]; apply elem_of_cons in Hr as [->|Hr];
      [done| | |by apply IH].
    + destruct Hx. rewrite <- Hemail. by apply list_elem_of_fmap_2.
    + destruct Hx. rewrite Hemail. by apply list_elem_of_fmap_2.
  - rewrite get_user_by_email_None in E. by destruct (E u Hu).
Qed.
End users.

Lemma create_user_registers_witness :
  (∀ u, u ∈ users sample_db → User.email u ≠ "carol@example.org") ∧
  ∃ db' new,
    main.create_user sample_hash (UserCreate.mk "carol@example.org" "pw3") sample_db
      = (db', inr new) ∧
    crud.get_user_by_email db' "carol@example.org" = Some new.
Proof.
  assert (∀ u, u ∈ users sample_db → User.email u ≠ "carol@example.org") as Hfresh.
  { intros u Hu. vm_compute in Hu.
    repeat (apply elem_of_cons in Hu as [->|Hu]); [done..|by apply elem_of_nil in Hu]. }
  split; [done|].
  destruct (create_user_registers sample_hash sample_db
              (UserCreate.mk "carol@example.org" "pw3") Hfresh)
    as (db' & new & Hcreate & _ & _ & _ & _ & Hget & _).
  by exists db', new.
Defined.

Lemma reachable_invariants_witness :
  main.reachable sample_hash sample_db ∧
  NoDup (User.email <$> users sample_db) ∧
  (∀ t, t ∈ transactions sample_db → Transaction.owner_id t ∈ User.id <$> users sample_db).
Proof.
  pose proof sample_db_reachable as Hreach.
  destruct (reachable_invariants sample_hash sample_db Hreach) as (Hemails & Howners & _).
  by split_and!.
Defined.

(** X11. Registration followed by login.  After an email is registered, login
    with that email and a password that [verify_password] accepts against the
    stored hash returns a bearer token made for that email; a password it
    rejects, and any login before the email was registered, raise the same 401
    with the same detail and header. *)
Theorem register_then_login {A} (get_password_hash : string → string)
    (verify_password : string → string → bool)
    (create_access_token : list (string * string) → string)
    (db : Session A) (user : UserCreate.t) :
  (∀ u, u ∈ users db → User.email u ≠ UserCreate.email user) →
  let login := main.login_for_access_token verify_password create_access_token in
  let db' := (main.create_user get_password_hash user db).1 in
  let hashed := get_password_hash (UserCreate.password user) in
  let unauthorized :=
    inl (mkHTTPException 401 "Incorrect email or password",
         [("WWW-Authenticate", "Bearer")]) in
  (∀ p, verify_password p hashed = true →
     login db' (main.mkForm (UserCreate.email user) p) =
     inr [("access_token", create_access_token [("sub", UserCreate.email user)]);
          ("token_type", "bearer")]) ∧
  (∀ p, verify_password p hashed = false →
     login db' (main.mkForm (UserCreate.email user) p) = unauthorized) ∧
  (∀ p, login db (main.mkForm (UserCreate.email user) p) = unauthorized).
Proof.
  intros Hfresh login db' hashed unauthorized.
  destruct (create_user_fresh get_password_hash db user Hfresh) as [Hdb' Hget].
  subst login db' hashed unauthorized. unfold main.login_for_access_token. simpl.
  rewrite Hget. simpl. split_and!.
  - by intros p ->.
  - by intros p ->.
  - intros p. by rewrite (proj2 (get_user_by_email_None db _) Hfresh).
Qed.

Lemma register_then_login_witness :
  (∀ u, u ∈ users sample_db → User.email u ≠ "carol@example.org") ∧
  sample_verify "pw3" (sample_hash "pw3") = true ∧
  sample_verify "guess" (sample_hash "pw3") = false ∧
  (let db' := (main.create_user sample_hash
                 (UserCreate.mk "carol@example.org" "pw3") sample_db).1 in
   main.login_for_access_token sample_verify sample_token db'
     (main.mkForm "carol@example.org" "pw3") =
   inr [("access_token", "token:carol@example.org"); ("token_type", "bearer")] ∧
   main.login_for_access_token sample_verify sample_token db'
     (main.mkForm "carol@example.org" "guess") =
   inl (mkHTTPException 401 "Incorrect email or password",
        [("WWW-Authenticate", "Bearer")])).
Proof.
  assert (∀ u, u ∈ users sample_db → User.email u ≠ "carol@example.org") as Hfresh.
  { intros u Hu. vm_compute in Hu.
    repeat (apply elem_of_cons in Hu as [->|Hu]); [done..|by apply elem_of_nil in Hu]. }
  destruct (register_then_login sample_hash sample_verify sample_token sample_db
              (UserCreate.mk "carol@example.org" "pw3") Hfresh)
    as (Hgood & Hbad & _).
  split_and!; [done|reflexivity|reflexivity|]. cbv zeta. split.
  - exact (Hgood "pw3" eq_refl).
  - exact (Hbad "guess" eq_refl).
Defined.

(** ** Create, update and delete compose *)

Section compose.
Context {A : Type}.
Implicit Types (db : Session A) (t : Transaction.t A) (payload : TransactionCreate.t A).

Lemma create_transaction_fresh db payload u r :
  r ∈ transactions db →
  Transaction.id r ≠ Transaction.id (crud.create_transaction db payload u).2.
Proof.
  intros Hr Hid. destruct (next_id_fresh (Transaction.id <$> transactions db)).
  simpl in Hid. rewrite <- Hid. by apply list_elem_of_fmap_2.
Qed.

Lemma get_transaction_create db payload u :
  crud.get_transaction (crud.create_transaction db payload u).1
    (Transaction.id (crud.create_transaction db payload u).2) u =
  Some (crud.create_transaction db payload u).2.
Proof.
  unfold crud.get_transaction. cbn [crud.create_transaction fst snd transactions].
  rewrite filter_app, filter_cons_True, filter_nil by done.
  rewrite filter_none; [done|]. intros r Hr [Hid _].
  by apply (create_transaction_fresh db payload u r).
Qed.

(** X12. Create then get.  The created transaction gets an id that no row
    had, carries the four payload fields, and is what [get_transaction]
    returns for that id and the creator; every other id, for every user,
    resolves as it did before. *)
Theorem create_get_round_trip db payload (u : Z) :
  let '(db', row) := crud.create_transaction db payload u in
  (∀ r, r ∈ transactions db → Transaction.id r ≠ Transaction.id row) ∧
  crud.get_transaction db' (Transaction.id row) u =
    Some (Transaction.mk (Transaction.id row)
            (TransactionCreate.title payload) (TransactionCreate.amount payload)
            (TransactionCreate.type payload) (TransactionCreate.category_id payload) u) ∧
  (∀ i v, i ≠ Transaction.id row →
     crud.get_transaction db' i v = crud.get_transaction db i v) ∧
  users db' = users db ∧ categories db' = categories db.
Proof.
  destruct (crud.create_transaction db payload u) as [db' row] eqn:E.
  assert (db' = (crud.create_transaction db payload u).1) as -> by by rewrite E.
  assert (row = (crud.create_transaction db payload u).2) as -> by by rewrite E.
  split_and!; [|by rewrite get_transaction_create| |done..].
  - intros r Hr. by apply create_transaction_fresh.
  - intros i v Hi. unfold crud.get_transaction. simpl.
    rewrite filter_app, filter_cons_False, filter_nil, app_nil_r; [done|].
    intros [Hid _]. by destruct Hi.
Qed.

(** X13. Create then delete.  Deleting the transaction just created, as its
    creator, returns it and gives back the database as it was before the
    creation. *)
Theorem create_delete_round_trip db payload (u : Z) :
  let '(db', row) := crud.create_transaction db payload u in
  crud.delete_transaction db' (Transaction.id row) u = (db, Some row).
Proof.
  destruct (crud.create_transaction db payload u) as [db' row] eqn:E.
  assert (db' = (crud.create_transaction db payload u).1) as -> by by rewrite E.
  assert (row = (crud.create_transaction db payload u).2) as -> by by rewrite E.
  unfold crud.delete_transaction. rewrite get_transaction_create.
  f_equal. unfold crud.flush_delete. cbn [crud.create_transaction fst snd transactions
    users categories].
  rewrite filter_app, filter_cons_False, filter_nil, app_nil_r by (intros H; by apply H).
  rewrite filter_all; [by destruct db|].
  intros r Hr. by apply (create_transaction_fresh db payload u r).
Qed.

Lemma update_transaction_own db l1 l2 t payload :
  wf db → transactions db = l1 ++ t :: l2 →
  let t' := Transaction.mk (Transaction.id t)
              (TransactionCreate.title payload) (TransactionCreate.amount payload)
              (TransactionCreate.type payload) (TransactionCreate.category_id payload)
              (Transaction.owner_id t) in
  crud.update_transaction db (Transaction.id t) payload (Transaction.owner_id t) =
  (mkSession (users db) (categories db) (l1 ++ t' :: l2), Some t').
Proof.
  intros Hwf Hdb t'. unfold crud.update_transaction.
  rewrite get_transaction_own; [|done|rewrite Hdb; apply elem_of_app; right; left].
  rewrite setattr_dict. fold t'. f_equal. unfold crud.flush_update. f_equal.
  by apply (flush_update_split db l1 l2 t).
Qed.

(** X14. The last update wins: with distinct primary keys, two updates of a
    transaction by its owner leave the database, and return the row, that the
    second update alone gives. *)
Theorem update_transaction_twice db t payload1 payload2 :
  wf db → t ∈ transactions db →
  let i := Transaction.id t in
  let u := Transaction.owner_id t in
  crud.update_transaction (crud.update_transaction db i payload1 u).1 i payload2 u =
  crud.update_transaction db i payload2 u.
Proof.
  intros Hwf (l1 & l2 & Hdb)%list_elem_of_split i u. subst i u.
  pose proof (wf_update_transaction db (Transaction.id t) payload1
                (Transaction.owner_id t) Hwf) as Hwf1.
  rewrite (update_transaction_own db l1 l2 t payload1 Hwf Hdb) in Hwf1 |- *.
  rewrite (update_transaction_own db l1 l2 t payload2 Hwf Hdb).
  cbv zeta in *. unfold fst in *.
  exact (update_transaction_own _ l1 l2 _ payload2 Hwf1 eq_refl).
Qed.

(** X15. Deleting twice: after a delete, whether or not it found a row, the
    same delete finds nothing and changes nothing. *)
Theorem delete_transaction_twice db (i u : Z) :
  let db' := (crud.delete_transaction db i u).1 in
  crud.delete_transaction db' i u = (db', None).
Proof.
  cbv zeta. apply delete_transaction_None. unfold crud.delete_transaction.
  destruct (crud.get_transaction db i u) as [t|] eqn:E; [|done].
  apply get_transaction_Some in E as (Hid & _). by apply get_transaction_flush_delete.
Qed.
End compose.

Lemma update_transaction_twice_witness :
  wf sample_db ∧ coffee ∈ transactions sample_db ∧
  crud.update_transaction
    (crud.update_transaction sample_db 1 (TransactionCreate.mk "Latte" 500 "expense" 1) 1).1
    1 (TransactionCreate.mk "Mocha" 550 "expense" 1) 1 =
  crud.update_transaction sample_db 1 (TransactionCreate.mk "Mocha" 550 "expense" 1) 1.
Proof.
  assert (wf sample_db) as Hwf by (repeat split; by apply (bool_decide_unpack _)).
  assert (coffee ∈ transactions sample_db) as Hin by (vm_compute; left).
  split_and!; [done..|].
  exact (update_transaction_twice sample_db coffee
           (TransactionCreate.mk "Latte" 500 "expense" 1)
           (TransactionCreate.mk "Mocha" 550 "expense" 1) Hwf Hin).
Defined.

(** ** What a user sees of the writes of others *)

Section isolation.
Context {A : Type}.
Implicit Types (db : Session A) (t : Transaction.t A) (payload : TransactionCreate.t A).

Lemma get_transaction_of_owned db j u :
  crud.get_transaction db j u =
  first (filter (λ t, Transaction.id t = j)
           (filter (λ t, Transaction.owner_id t = u) (transactions db))).
Proof. unfold crud.get_transaction. by rewrite list_filter_filter. Qed.

Lemma expenses_of_owned db u :
  expenses db u =
  filter (λ t, Transaction.type t = "expense")
    (filter (λ t, Transaction.owner_id t = u) (transactions db)).
Proof.
  unfold expenses. rewrite list_filter_filter. apply list_filter_iff. naive_solver.
Qed.

(** What a user reads depends on the transaction table only through the rows
    the user owns. *)
Lemma same_owned (add : A → A → A) db db' u :
  filter (λ t, Transaction.owner_id t = u) (transactions db') =
    filter (λ t, Transaction.owner_id t = u) (transactions db) →
  categories db' = categories db →
  (∀ skip limit : Z,
     crud.get_transactions db' u skip limit = crud.get_transactions db u skip limit) ∧
  (∀ j, crud.get_transaction db' j u = crud.get_transaction db j u) ∧
  crud.get_spending_by_category add db' u = crud.get_spending_by_category add db u.
Proof.
  intros Howned Hcs. split_and!.
  - intros skip limit. unfold crud.get_transactions. by rewrite Howned.
  - intros j. by rewrite !get_transaction_of_owned, Howned.
  - by rewrite !get_spending_by_category_entries, !expenses_of_owned, Howned, Hcs.
Qed.

(** X16. With distinct primary keys, a create, update or delete issued with
    the identity of user [v] changes nothing of what another user [u] reads:
    the listing, the single transactions and the spending report of [u] are
    as before. *)
Theorem writes_of_others_invisible (add : A → A → A) db (u v : Z) payload (i : Z) :
  wf db → v ≠ u →
  let unchanged db' :=
    (∀ skip limit : Z,
       crud.get_transactions db' u skip limit = crud.get_transactions db u skip limit) ∧
    (∀ j, crud.get_transaction db' j u = crud.get_transaction db j u) ∧
    crud.get_spending_by_category add db' u = crud.get_spending_by_category add db u in
  unchanged (crud.create_transaction db payload v).1 ∧
  unchanged (crud.update_transaction db i payload v).1 ∧
  unchanged (crud.delete_transaction db i v).1.
Proof.
  intros Hwf Hvu unchanged. subst unchanged. cbv beta. split; [|split].
  - apply same_owned; [|done]. simpl.
    by rewrite filter_app, filter_cons_False, filter_nil, app_nil_r.
  - unfold crud.update_transaction.
    destruct (crud.get_transaction db i v) as [t|] eqn:E; [|by apply same_owned].
    apply get_transaction_Some in E as (<- & <- & l1 & l2 & Hdb & _).
    apply same_owned; [|done]. unfold fst.
    rewrite (flush_update_split db l1 l2 t) by (by rewrite ?setattr_dict).
    rewrite Hdb, setattr_dict, !filter_app, !filter_cons_False; done.
  - unfold crud.delete_transaction.
    destruct (crud.get_transaction db i v) as [t|] eqn:E; [|by apply same_owned].
    apply get_transaction_Some in E as (<- & <- & l1 & l2 & Hdb & _).
    apply same_owned; [|done]. unfold fst.
    rewrite (flush_delete_split db l1 l2 t) by done.
    rewrite Hdb, !filter_app, filter_cons_False; done.
Qed.
End isolation.

Lemma writes_of_others_invisible_witness :
  wf sample_db ∧ (2 : Z) ≠ 1 ∧
  crud.get_spending_by_category Z.add
    (crud.update_transaction sample_db 2 (TransactionCreate.mk "Flat" 95000 "expense" 1) 2).1 1
  = crud.get_spending_by_category Z.add sample_db 1 ∧
  crud.get_transaction (crud.delete_transaction sample_db 2 2).1 1 1
  = crud.get_transaction sample_db 1 1.
Proof.
  assert (wf sample_db) as Hwf by (repeat split; by apply (bool_decide_unpack _)).
  assert ((2 : Z) ≠ 1) as Hne by lia.
  destruct (writes_of_others_invisible Z.add sample_db 1 2
              (TransactionCreate.mk "Flat" 95000 "expense" 1) 2 Hwf Hne)
    as (_ & (_ & _ & Hupdate) & (_ & Hdelete & _)).
  split_and!; [done..|exact Hupdate|exact (Hdelete 1)].
Defined.

(** ** The report after a write *)

Section report_after.
Context {A : Type}.
Variable add : A → A → A.
Implicit Types (db : Session A) (t : Transaction.t A).

(** X17. Taking an expense out.  With distinct primary keys, when the owner
    of an expense whose category exists deletes it, or updates it to a type
    other than "expense", the amount of the expense leaves, once, the
    sequence of amounts that the owner's report adds up from left to right
    under the category's name, and the rest of that sequence stays as it
    was; the totals under the other names do not change.  This holds for
    every addition. *)
Theorem expense_taken_out db t (c : Category.t) (payload : TransactionCreate.t A) :
  wf db → t ∈ transactions db → Transaction.type t = "expense" →
  c ∈ categories db → Category.id c = Transaction.category_id t →
  TransactionCreate.type payload ≠ "expense" →
  let u := Transaction.owner_id t in
  let report db := crud.get_spending_by_category add db u in
  let taken_out db' :=
    (∃ l1 l2,
       report_total (Category.name c) (report db) =
         spec.sum add (l1 ++ Transaction.amount t :: l2) ∧
       report_total (Category.name c) (report db') = spec.sum add (l1 ++ l2)) ∧
    ∀ n, n ≠ Category.name c → report_total n (report db') = report_total n (report db) in
  taken_out (crud.delete_transaction db (Transaction.id t) u).1 ∧
  taken_out (crud.update_transaction db (Transaction.id t) payload u).1.
Proof.
  intros Hwf Ht Hty Hc Hid Hpayload u report taken_out.
  pose proof Hwf as (_ & Hcs & _).
  pose proof (get_transaction_own db t Hwf Ht) as Hget.
  pose proof Hget as (_ & _ & l1 & l2 & Hdb & _)%get_transaction_Some.
  set (keep := λ r : Transaction.t A,
         Transaction.owner_id r = u ∧ Transaction.type r = "expense").
  assert (∀ db', categories db' = categories db →
    transactions db' = l1 ++ l2 ∨
    (∃ t', transactions db' = l1 ++ t' :: l2 ∧ Transaction.type t' ≠ "expense") →
    taken_out db') as Htaken.
  { intros db' Hcs' Hts'. subst taken_out report. cbv beta.
    assert (expenses db' u = filter keep l1 ++ filter keep l2) as He'.
    { unfold expenses. fold keep. destruct Hts' as [->|(t' & -> & Ht')].
      - by rewrite filter_app.
      - rewrite filter_app, filter_cons_False; [done|]. by intros [_ ?]. }
    assert (expenses db u = filter keep l1 ++ t :: filter keep l2) as He.
    { unfold expenses. fold keep. by rewrite Hdb, filter_app, filter_cons_True. }
    assert (∀ n, ∃ g1 g2,
      report_total n (crud.get_spending_by_category add db' u) = spec.sum add (g1 ++ g2) ∧
      report_total n (crud.get_spending_by_category add db u) =
        spec.sum add (g1 ++ (if decide (Category.name c = n)
                             then [Transaction.amount t] else []) ++ g2)) as Hn.
    { intros n. rewrite !report_total_report, He, He', Hcs'.
      destruct (group_amounts_insert (categories db) (filter keep l1) (filter keep l2)
                  t c n Hcs Hc Hid) as (g1 & g2 & H1 & H2 & _).
      exists g1, g2. by rewrite H1, H2. }
    split.
    - destruct (Hn (Category.name c)) as (g1 & g2 & H1 & H2).
      rewrite decide_True in H2 by done. by exists g1, g2.
    - intros n Hne. destruct (Hn n) as (g1 & g2 & H1 & H2).
      rewrite decide_False in H2 by done. by rewrite H1, H2. }
  split; apply Htaken.
  - unfold crud.delete_transaction, u. by rewrite Hget.
  - left. unfold crud.delete_transaction, u. rewrite Hget. unfold fst.
    by apply (flush_delete_split db l1 l2 t).
  - unfold crud.update_transaction, u. by rewrite Hget.
  - right. unfold crud.update_transaction, u. rewrite Hget. unfold fst.
    eexists. split; [by apply (flush_update_split db l1 l2 t); rewrite ?setattr_dict|].
    by rewrite setattr_dict.
Qed.
End report_after.

Section report_shape.
Context {A : Type}.

(** X18. The report has one row per category name; its names are those of the
    existing categories that an expense of the user references, whoever owns
    the category; it is empty exactly when no expense of the user references
    an existing category.  This holds for any addition. *)
Theorem report_rows (add : A → A → A) (db : Session A) (u : Z) :
  NoDup (crud.get_spending_by_category add db u).*1 ∧
  (∀ n, n ∈ (crud.get_spending_by_category add db u).*1 ↔
     ∃ c t, c ∈ categories db ∧ t ∈ transactions db ∧
       Transaction.category_id t = Category.id c ∧ Transaction.owner_id t = u ∧
       Transaction.type t = "expense" ∧ Category.name c = n) ∧
  (crud.get_spending_by_category add db u = [] ↔
   ∀ c t, c ∈ categories db → t ∈ transactions db →
     Transaction.owner_id t = u → Transaction.type t = "expense" →
     Transaction.category_id t ≠ Category.id c).
Proof.
  split; [|split].
  - rewrite get_spending_by_category_entries. apply NoDup_group_by_sum.
  - intros n. apply reported_names.
  - split.
    + intros Hnil c t Hc Ht Hu Hty Hid.
      assert (Category.name c ∈ (crud.get_spending_by_category add db u).*1) as Hin
        by (apply reported_names; eauto 10).
      rewrite Hnil in Hin. by apply elem_of_nil in Hin.
    + intros Hnone.
      destruct (crud.get_spending_by_category add db u) as [|[n s] report] eqn:E; [done|].
      assert (n ∈ (crud.get_spending_by_category add db u).*1) as Hin
        by (rewrite E; left).
      apply reported_names in Hin as (c & t & Hc & Ht & Hid & Hu & Hty & _).
      by destruct (Hnone c t).
Qed.
End report_shape.

Lemma expense_taken_out_witness :
  wf tea_db ∧ tea ∈ transactions tea_db ∧ food ∈ categories tea_db ∧
  (∃ l1 l2,
     report_total "Food" (crud.get_spending_by_category Z.add tea_db 1) =
       spec.sum Z.add (l1 ++ 300 :: l2) ∧
     report_total "Food"
       (crud.get_spending_by_category Z.add (crud.delete_transaction tea_db 3 1).1 1) =
       spec.sum Z.add (l1 ++ l2)) ∧
  report_total "Rent"
    (crud.get_spending_by_category Z.add (crud.delete_transaction tea_db 3 1).1 1) =
  report_total "Rent" (crud.get_spending_by_category Z.add tea_db 1).
Proof.
  assert (wf tea_db) as Hwf by (repeat split; by apply (bool_decide_unpack _)).
  assert (tea ∈ transactions tea_db) as Hin by (vm_compute; do 2 right; left).
  assert (food ∈ categories tea_db) as Hc by (vm_compute; left).
  destruct (expense_taken_out Z.add tea_db tea food
              (TransactionCreate.mk "Tea" 300 "income" 1)
              Hwf Hin eq_refl Hc eq_refl) as [[Hdelete Hothers] _]; [done|].
  split_and!; [done..|exact Hdelete|].
  apply (Hothers "Rent"). done.
Defined.

Lemma get_user_by_email_registered_witness :
  main.reachable sample_hash sample_db ∧ bob ∈ users sample_db ∧
  crud.get_user_by_email sample_db "bob@example.org" = Some bob.
Proof.
  pose proof sample_db_reachable as Hreach.
  assert (bob ∈ users sample_db) as Hin by (vm_compute; right; left).
  split_and!; [done..|].
  exact (get_user_by_email_registered sample_hash sample_db bob Hreach Hin).
Defined.

(** ** The category listing *)

(** X20. For every offset and limit, negative ones included,
    [get_categories] shows only categories that the caller owns.  With a
    limit that is not negative it shows at most [limit] of them; with a
    negative limit and no positive offset it shows all of them.  For offsets
    and limits that are not negative, consecutive pages join into one page,
    a page has [limit1] rows or what is left of the caller's categories after
    [skip] of them, and with distinct primary keys two consecutive pages
    share no category. *)
Theorem get_categories_pages {A} (db : Session A) (u : Z) (skip limit1 limit2 : Z) :
  (∀ c, c ∈ crud.get_categories db u skip limit1 →
     c ∈ categories db ∧ Category.owner_id c = u) ∧
  (0 ≤ limit1 → (length (crud.get_categories db u skip limit1) ≤ Z.to_nat limit1)%nat) ∧
  (skip ≤ 0 → limit1 < 0 →
     crud.get_categories db u skip limit1 =
     filter (λ c, Category.owner_id c = u) (categories db)) ∧
  (0 ≤ skip → 0 ≤ limit1 → 0 ≤ limit2 →
     crud.get_categories db u skip (limit1 + limit2) =
       crud.get_categories db u skip limit1 ++
       crud.get_categories db u (skip + limit1) limit2 ∧
     Z.of_nat (length (crud.get_categories db u skip limit1)) =
       limit1 `min`
         (0 `max` (Z.of_nat (length (filter (λ c, Category.owner_id c = u)
                                       (categories db))) - skip)) ∧
     (wf db → ∀ c1 c2, c1 ∈ crud.get_categories db u skip limit1 →
        c2 ∈ crud.get_categories db u (skip + limit1) limit2 →
        Category.id c1 ≠ Category.id c2)).
Proof.
  unfold crud.get_categories. split_and!.
  - intros c Hc%offset_limit_elem. by apply list_elem_of_filter in Hc as [? ?].
  - apply offset_limit_bound.
  - apply offset_limit_all.
  - intros Hskip H1 H2. split_and!.
    + by apply offset_limit_add.
    + by apply offset_limit_length.
    + intros (_ & Hnd & _) c1 c2. apply offset_limit_disjoint; [|done|done|lia].
      by apply NoDup_fmap_filter.
Qed.

Lemma get_categories_pages_witness :
  wf two_food_db ∧ (0 : Z) ≤ 0 ∧ (0 : Z) ≤ 1 ∧ (-1 : Z) < 0 ∧
  food ∈ crud.get_categories two_food_db 1 0 1 ∧
  second_food ∈ crud.get_categories two_food_db 1 (0 + 1) 1 ∧
  Category.id food ≠ Category.id second_food ∧
  crud.get_categories two_food_db 1 0 (1 + 1) = [food; second_food] ∧
  crud.get_categories two_food_db 1 0 (-1) = [food; second_food].
Proof.
  assert (wf two_food_db) as Hwf by (repeat split; by apply (bool_decide_unpack _)).
  assert (food ∈ crud.get_categories two_food_db 1 0 1) as H1 by (vm_compute; left).
  assert (second_food ∈ crud.get_categories two_food_db 1 (0 + 1) 1) as H2
    by (vm_compute; left).
  destruct (get_categories_pages two_food_db 1 0 1 1) as (_ & _ & _ & Hpages).
  destruct Hpages as (Hjoin & _ & Hdisjoint); [lia..|].
  destruct (get_categories_pages two_food_db 1 0 (-1) 0) as (_ & _ & Hall & _).
  split_and!; [done|lia|lia|lia|done|done| | |].
  - exact (Hdisjoint Hwf food second_food H1 H2).
  - exact (eq_trans Hjoin eq_refl).
  - refine (eq_trans (Hall _ _) eq_refl); lia.
Defined.
